(** * TeacherRankingSection: the loader, the filter/sort pipeline and the
      performance-colour mapper of [src/components/TeacherRankingSection.tsx]

    The component is embedded shallowly.  The fragment of ECMAScript it
    relies on (numbers and their comparisons, truthiness, strings of code
    units, [startsWith]/[endsWith], [Array.prototype.filter] and
    [Array.prototype.sort]) lives in module [JS]; the component itself in
    module [Ranking]; the words of the specification in module [Spec]; the
    students of its scenarios in module [Scenario].  The facts follow in
    [JSFacts] and [RankingFacts], and the properties the specification
    states in [Properties]. *)

From Stdlib Require Import ZArith NArith QArith List Bool String Ascii.
From Stdlib Require Import Permutation Sorted Lia Lqa Btauto.
Import ListNotations.

(* ================================================================== *)
(** ** The ECMAScript fragment *)
(* ================================================================== *)

Module JS.

(** *** Numbers

    A [number] is an IEEE double.  The component never does arithmetic on
    one, it only compares them and tests them for truthiness, so a double is
    represented by the rational it denotes; the two zeros are identified
    (no operation used here tells them apart). *)
Inductive number : Type :=
| NaN
| NegInfinity
| Finite (q : Q)
| PosInfinity.

Definition isNaN (x : number) : bool :=
  match x with NaN => true | _ => false end.

(** [x < y] *)
Definition lt (x y : number) : bool :=
  match x, y with
  | NaN, _ | _, NaN => false
  | NegInfinity, NegInfinity => false
  | NegInfinity, _ => true
  | Finite _, NegInfinity => false
  | Finite p, Finite q => match (p ?= q)%Q with Lt => true | _ => false end
  | Finite _, PosInfinity => true
  | PosInfinity, _ => false
  end.

(** [x > y] *)
Definition gt (x y : number) : bool := lt y x.

(** [x >= y]: false when the comparison [x < y] is undefined (a NaN
    operand) or true. *)
Definition ge (x y : number) : bool :=
  negb (isNaN x) && negb (isNaN y) && negb (lt x y).

(** [x <= y]: false when the comparison [y < x] is undefined or true. *)
Definition le (x y : number) : bool :=
  negb (isNaN x) && negb (isNaN y) && negb (lt y x).

(** [x === y] on two numbers: NaN equals nothing, not even itself. *)
Definition strict_eq_number (x y : number) : bool :=
  match x, y with
  | Finite p, Finite q => Qeq_bool p q
  | NegInfinity, NegInfinity => true
  | PosInfinity, PosInfinity => true
  | _, _ => false
  end.

(** An array index as a number, and [index + 1]: on the non-negative
    integers an array is indexed by, the addition is exact. *)
Definition of_index (i : nat) : number := Finite (inject_Z (Z.of_nat i)).

Definition succ_index (i : nat) : number :=
  Finite (inject_Z (Z.of_nat i + 1)).

(** ToBoolean on a number: zero and NaN are falsy. *)
Definition truthy_number (x : number) : bool :=
  match x with
  | NaN => false
  | Finite q => negb (Qeq_bool q 0)
  | _ => true
  end.

Definition zero : number := Finite 0.

(** *** The values a fetched column can hold: the key may be absent from
    the row ([undefined]), the column may be [null], or it holds a number. *)
Inductive value : Type :=
| Undefined
| Null
| Num (n : number).

(** [v || 0] *)
Definition or_zero (v : value) : number :=
  match v with
  | Num n => if truthy_number n then n else zero
  | _ => zero
  end.

(** *** Strings: sequences of UTF-16 code units *)
Definition jsstring : Type := list N.

Definition str (s : string) : jsstring :=
  List.map N_of_ascii (list_ascii_of_string s).

(** ToBoolean on a string: only the empty string is falsy. *)
Definition truthy_string (s : jsstring) : bool :=
  match s with [] => false | _ => true end.

(** [a === b] on two strings *)
Fixpoint strict_eq (a b : jsstring) : bool :=
  match a, b with
  | [], [] => true
  | x :: a', y :: b' => N.eqb x y && strict_eq a' b'
  | _, _ => false
  end.

(** The relational comparison of two strings: code unit by code unit, a
    proper prefix being smaller. *)
Fixpoint compare_string (a b : jsstring) : comparison :=
  match a, b with
  | [], [] => Eq
  | [], _ :: _ => Lt
  | _ :: _, [] => Gt
  | x :: a', y :: b' =>
      match N.compare x y with
      | Eq => compare_string a' b'
      | c => c
      end
  end.

(** [a < b] on two strings *)
Definition lt_string (a b : jsstring) : bool :=
  match compare_string a b with Lt => true | _ => false end.

(** [s.startsWith(p)] *)
Fixpoint startsWith (s p : jsstring) {struct p} : bool :=
  match p, s with
  | [], _ => true
  | _ :: _, [] => false
  | y :: p', x :: s' => N.eqb x y && startsWith s' p'
  end.

(** [s.endsWith(p)]: with [start = s.length - p.length], false when
    [start < 0], else whether the code units of [s] from [start] on are
    those of [p]. *)
Definition endsWith (s p : jsstring) : bool :=
  if (List.length p <=? List.length s)%nat
  then strict_eq (skipn (List.length s - List.length p) s) p
  else false.

(** [toUpperCase] and [toLowerCase] follow the Unicode case tables, which
    are not part of the component: they are taken as an interface. *)
Class CaseMapping : Type := {
  toUpperCase : jsstring -> jsstring;
  toLowerCase : jsstring -> jsstring
}.

(** The instance for Basic Latin, where the tables map [a]..[z] to
    [A]..[Z] and back and leave every other code unit alone; it is what
    the engine computes on strings of code units below 128. *)
Definition upper_unit (c : N) : N :=
  if ((97 <=? c) && (c <=? 122))%N then (c - 32)%N else c.

Definition lower_unit (c : N) : N :=
  if ((65 <=? c) && (c <=? 90))%N then (c + 32)%N else c.

Definition BasicLatin : CaseMapping := {|
  toUpperCase := List.map upper_unit;
  toLowerCase := List.map lower_unit
|}.

(** *** Exceptions *)
Inductive completion (E A : Type) : Type :=
| Normal (a : A)
| Throw (e : E).
Arguments Normal {E A} a.
Arguments Throw {E A} e.

Definition bind {E A B} (c : completion E A) (k : A -> completion E B)
  : completion E B :=
  match c with
  | Normal a => k a
  | Throw e => Throw e
  end.

(** [l.filter(f)], where the callback may throw: the callback runs on the
    elements from left to right and the first exception ends the call. *)
Fixpoint filter_throwing {E A} (f : A -> completion E bool) (l : list A)
  : completion E (list A) :=
  match l with
  | [] => Normal []
  | x :: l' =>
      bind (f x) (fun keep =>
      bind (filter_throwing f l') (fun rest =>
      Normal (if keep then x :: rest else rest)))
  end.

(** [l.map((x, index) => f(x, index))], the indices counted from [i] *)
Fixpoint map_from {A B} (f : A -> nat -> B) (i : nat) (l : list A)
  : list B :=
  match l with
  | [] => []
  | x :: l' => f x i :: map_from f (S i) l'
  end.

Definition map_indexed {A B} (f : A -> nat -> B) (l : list A) : list B :=
  map_from f 0 l.

(** *** [Array.prototype.sort]

    For a consistent comparator the language fixes the outcome of
    [l.sort(comparefn)]: the elements of [l], in non-decreasing order of
    [comparefn], elements that compare equal keeping their relative order.
    [sort] computes that list by insertion; [a] goes before [b] when
    [comparefn(a, b) <= 0] and [a] came first. *)
Section Sort.
Context {A : Type}.
Variable comparefn : A -> A -> Z.

Fixpoint insert (x : A) (l : list A) : list A :=
  match l with
  | [] => [x]
  | y :: l' =>
      if (comparefn x y <=? 0)%Z then x :: y :: l' else y :: insert x l'
  end.

Fixpoint sort (l : list A) : list A :=
  match l with
  | [] => []
  | x :: l' => insert x (sort l')
  end.

(** What the language asks of a comparator for the outcome of [sort] to
    be defined (a "consistent comparator"), in terms of the sign only. *)
Record consistent : Prop := {
  cmp_refl : forall a, comparefn a a = 0%Z;
  cmp_flip : forall a b, (comparefn a b < 0 <-> comparefn b a > 0)%Z;
  cmp_trans_le : forall a b c,
      (comparefn a b <= 0 -> comparefn b c <= 0 -> comparefn a c <= 0)%Z
}.

(** [b] is not required before [a] *)
Definition before (a b : A) : Prop := (comparefn a b <= 0)%Z.

(** The elements that tie with [x] *)
Definition ties (x : A) (l : list A) : list A :=
  List.filter (fun y => (comparefn x y =? 0)%Z) l.
End Sort.
Arguments cmp_refl {A comparefn} _ a.
Arguments cmp_flip {A comparefn} _ a b.
Arguments cmp_trans_le {A comparefn} _ a b c.

End JS.

(* ================================================================== *)
(** ** The component *)
(* ================================================================== *)

Module Ranking.
Import JS.

(** [interface Student].  A row of the [students] table comes back from the
    store as it is; [name] and [admission_id] are read with [?.] by the
    comparator, so a row may lack them ([None] stands for [null] and for a
    missing key). *)
Record Student : Type := {
  id : jsstring;
  admission_id : option jsstring;
  name : option jsstring;
  class_section : jsstring;
  class_name : jsstring;
  section : jsstring;
  latest_percentage : number
}.

(** A row as fetched ([s: any]): [latest_percentage] is not yet coerced. *)
Record Row : Type := {
  row_id : jsstring;
  row_admission_id : option jsstring;
  row_name : option jsstring;
  row_class_section : jsstring;
  row_class_name : jsstring;
  row_section : jsstring;
  row_latest_percentage : value
}.

(** The [filters] state; [None] is [undefined]. *)
Record Filters : Type := {
  percentageMin : option number;
  percentageMax : option number;
  nameStartsWith : option jsstring;
  nameEndsWith : option jsstring;
  classSection : option jsstring
}.

Inductive Order : Type := asc | desc.

(** The [sortConfig] state: [{ by: string; order: 'asc' | 'desc' }] *)
Record SortConfig : Type := {
  by_ : jsstring;
  order : Order
}.

Record State : Type := {
  students : list Student;
  filteredStudents : list Student;
  loading : bool;
  sortConfig : SortConfig;
  filters : Filters
}.

Definition noFilters : Filters := {|
  percentageMin := None;
  percentageMax := None;
  nameStartsWith := None;
  nameEndsWith := None;
  classSection := None
|}.

(** The state of the first render *)
Definition initialState : State := {|
  students := [];
  filteredStudents := [];
  loading := true;
  sortConfig := {| by_ := str "latest_percentage"; order := desc |};
  filters := noFilters
|}.

Definition setStudents (v : list Student) (st : State) : State :=
  {| students := v;
     filteredStudents := filteredStudents st;
     loading := loading st;
     sortConfig := sortConfig st;
     filters := filters st |}.

Definition setFilteredStudents (v : list Student) (st : State) : State :=
  {| students := students st;
     filteredStudents := v;
     loading := loading st;
     sortConfig := sortConfig st;
     filters := filters st |}.

Definition setLoading (v : bool) (st : State) : State :=
  {| students := students st;
     filteredStudents := filteredStudents st;
     loading := v;
     sortConfig := sortConfig st;
     filters := filters st |}.

(* ------------------------------------------------------------------ *)
(** *** [loadStudents] *)

(** What can be thrown: the error object of the store, or a rejection of
    the request. *)
Inductive Error : Type :=
| PostgrestError (message : string)
| Rejection (reason : string)
| TypeError.

(** What the loader does to the outside, in order. *)
Inductive Event : Type :=
| Query (table : string) (in_class_section : list jsstring)
        (order_by : string) (ascending : bool)
| ConsoleError (label : string) (e : Error)
| ToastError (message : string).

(** The object the awaited query resolves to: [{ data, error }] *)
Record QueryResult : Type := {
  data : option (list Row);
  error : option Error
}.

(** How the awaited request settles *)
Inductive Settled : Type :=
| Fulfilled (r : QueryResult)
| Rejected (e : Error).

Record World : Type := {
  state : State;
  trace : list Event
}.

(** Computations of the loader: they change the component state, leave a
    trace of events and may throw. *)
Definition M (A : Type) : Type := World -> completion Error A * World.

Definition ret {A} (a : A) : M A := fun w => (Normal a, w).

Definition throw {A} (e : Error) : M A := fun w => (Throw e, w).

Definition seq {A B} (c : M A) (k : A -> M B) : M B :=
  fun w =>
    match c w with
    | (Normal a, w') => k a w'
    | (Throw e, w') => (Throw e, w')
    end.

Declare Scope loader_scope.
Delimit Scope loader_scope with loader.
Notation "x <- c ;; k" := (seq c (fun x => k))
  (at level 61, c at next level, right associativity) : loader_scope.
Notation "c ;; k" := (seq c (fun _ => k))
  (at level 61, right associativity) : loader_scope.

(** [try { body } catch (e) { handler e } finally { final }] *)
Definition try_catch_finally {A} (body : M A) (handler : Error -> M A)
    (final : M unit) : M A :=
  fun w =>
    let '(r, w1) :=
      match body w with
      | (Throw e, w') => handler e w'
      | normal => normal
      end in
    match final w1 with
    | (Normal _, w2) => (r, w2)
    | (Throw e, w2) => (Throw e, w2)
    end.

Definition update (f : State -> State) : M unit :=
  fun w => (Normal tt, {| state := f (state w); trace := trace w |}).

Definition emit (ev : Event) : M unit :=
  fun w => (Normal tt, {| state := state w; trace := trace w ++ [ev] |}).

(** [await supabase.from('students').select('*').in('class_section', cs)
    .order('latest_percentage', { ascending: false })]: the request goes
    out, and the await yields the result or throws the rejection. *)
Definition await_query (cs : list jsstring) (settled : Settled)
  : M QueryResult :=
  fun w =>
    let w' := {| state := state w;
                 trace := trace w ++
                   [Query "students" cs "latest_percentage" false] |} in
    match settled with
    | Fulfilled r => (Normal r, w')
    | Rejected e => (Throw e, w')
    end.

(** [{ ...s, latest_percentage: s.latest_percentage || 0 }] *)
Definition coerce (s : Row) : Student := {|
  id := row_id s;
  admission_id := row_admission_id s;
  name := row_name s;
  class_section := row_class_section s;
  class_name := row_class_name s;
  section := row_section s;
  latest_percentage := or_zero (row_latest_percentage s)
|}.

Local Open Scope loader_scope.

(** [loadStudents], run with the class sections of the props; [settled]
    is how the request settles if it is made.  The setters replace one
    state variable each and the function reads none, so what it does
    before the [await] and what it does after are run here one after the
    other, on the world the function is started in. *)
Definition loadStudents (teacherClassSections : list jsstring)
    (settled : Settled) : M unit :=
  if (List.length teacherClassSections =? 0)%nat then
    update (setLoading false)
  else
    update (setLoading true) ;;
    try_catch_finally
      (r <- await_query teacherClassSections settled ;;
       match error r with
       | Some e => throw e
       | None =>
           match data r with
           | Some rows => update (setStudents (List.map coerce rows))
           | None => ret tt
           end
       end)
      (fun e =>
         emit (ConsoleError "Error loading students:" e) ;;
         emit (ToastError "Failed to load students"))
      (update (setLoading false)).

Local Close Scope loader_scope.

(* ------------------------------------------------------------------ *)
(** *** [applyFiltersAndSort] *)

Section Pipeline.
Context {CM : CaseMapping}.

(** [s.name.toUpperCase()]: a TypeError when the row has no name *)
Definition name_toUpperCase (s : Student) : completion Error jsstring :=
  match name s with
  | Some n => Normal (toUpperCase n)
  | None => Throw TypeError
  end.

(** [x?.toLowerCase() || ''] *)
Definition lower_or_empty (x : option jsstring) : jsstring :=
  match x with
  | Some v => let l := toLowerCase v in if truthy_string l then l else []
  | None => []
  end.

(** The callback handed to [filtered.sort]: the [switch] picks the two
    values, the two [if]s compare them. *)
Definition comparefn (sortConfig : SortConfig) (a b : Student) : Z :=
  let '(aVal_lt_bVal, aVal_gt_bVal) :=
    if strict_eq (by_ sortConfig) (str "name") then
      let aVal := lower_or_empty (name a) in
      let bVal := lower_or_empty (name b) in
      (lt_string aVal bVal, lt_string bVal aVal)
    else if strict_eq (by_ sortConfig) (str "admission_id") then
      let aVal := lower_or_empty (admission_id a) in
      let bVal := lower_or_empty (admission_id b) in
      (lt_string aVal bVal, lt_string bVal aVal)
    else if strict_eq (by_ sortConfig) (str "latest_percentage") then
      let aVal := or_zero (Num (latest_percentage a)) in
      let bVal := or_zero (Num (latest_percentage b)) in
      (lt aVal bVal, gt aVal bVal)
    else
      let aVal := or_zero (Num (latest_percentage a)) in
      let bVal := or_zero (Num (latest_percentage b)) in
      (lt aVal bVal, gt aVal bVal) in
  if aVal_lt_bVal then
    match order sortConfig with asc => (-1)%Z | desc => 1%Z end
  else if aVal_gt_bVal then
    match order sortConfig with asc => 1%Z | desc => (-1)%Z end
  else 0%Z.

(** The body of [applyFiltersAndSort], as a function of the three state
    variables it reads; the result is the array it hands to
    [setFilteredStudents], or what it throws. *)
Definition applyFiltersAndSort (students : list Student)
    (filters : Filters) (sortConfig : SortConfig)
  : completion Error (list Student) :=
  let filtered := students in
  let filtered :=
    match classSection filters with
    | Some c =>
        if truthy_string c
        then List.filter (fun s => strict_eq (class_section s) c) filtered
        else filtered
    | None => filtered
    end in
  let filtered :=
    match percentageMin filters with
    | Some m => List.filter (fun s => ge (latest_percentage s) m) filtered
    | None => filtered
    end in
  let filtered :=
    match percentageMax filters with
    | Some m => List.filter (fun s => le (latest_percentage s) m) filtered
    | None => filtered
    end in
  bind
    match nameStartsWith filters with
    | Some p =>
        if truthy_string p
        then filter_throwing
               (fun s => bind (name_toUpperCase s)
                              (fun u => Normal (startsWith u p)))
               filtered
        else Normal filtered
    | None => Normal filtered
    end (fun filtered =>
  bind
    match nameEndsWith filters with
    | Some p =>
        if truthy_string p
        then filter_throwing
               (fun s => bind (name_toUpperCase s)
                              (fun u => Normal (endsWith u p)))
               filtered
        else Normal filtered
    | None => Normal filtered
    end (fun filtered =>
  Normal (sort (comparefn sortConfig) filtered))).

(** The effect [useEffect(() => applyFiltersAndSort(), [students,
    sortConfig, filters])] on the component state. *)
Definition run_applyFiltersAndSort (st : State) : completion Error State :=
  bind (applyFiltersAndSort (students st) (filters st) (sortConfig st))
       (fun filtered => Normal (setFilteredStudents filtered st)).

(** **** What the pipeline amounts to

    The tests of the filters as one predicate, and the condition under
    which a name filter meets a row without a name.  [outcome] in the
    facts below shows the body to compute exactly this. *)

(** a string filter that is set and truthy *)
Definition active (x : option jsstring) : bool :=
  match x with Some p => truthy_string p | None => false end.

Definition has_name (s : Student) : bool :=
  match name s with Some _ => true | None => false end.

(** the three tests that cannot throw *)
Definition passes (f : Filters) (s : Student) : bool :=
  match classSection f with
  | Some c => if truthy_string c then strict_eq (class_section s) c else true
  | None => true
  end &&
  match percentageMin f with
  | Some m => ge (latest_percentage s) m
  | None => true
  end &&
  match percentageMax f with
  | Some m => le (latest_percentage s) m
  | None => true
  end.

(** the test of a name filter on a row *)
Definition name_test (test : jsstring -> jsstring -> bool)
    (x : option jsstring) (s : Student) : bool :=
  match x with
  | Some p =>
      if truthy_string p then
        match name s with
        | Some n => test (toUpperCase n) p
        | None => false
        end
      else true
  | None => true
  end.

Definition keeps (f : Filters) (s : Student) : bool :=
  passes f s &&
  name_test startsWith (nameStartsWith f) s &&
  name_test endsWith (nameEndsWith f) s.

(** a name filter is active and a row without a name reaches it *)
Definition throws (f : Filters) (students : list Student) : bool :=
  (active (nameStartsWith f) || active (nameEndsWith f)) &&
  negb (forallb has_name (List.filter (passes f) students)).
End Pipeline.

(* ------------------------------------------------------------------ *)
(** *** [handleFilterChange] *)

(** [handleFilterChange('nameStartsWith', v)] and the like on a filter
    set: [{ ...prev, [filterType]: value }] *)
Definition with_percentageMin (v : option number) (prev : Filters) : Filters :=
  {| percentageMin := v;
     percentageMax := percentageMax prev;
     nameStartsWith := nameStartsWith prev;
     nameEndsWith := nameEndsWith prev;
     classSection := classSection prev |}.

Definition with_percentageMax (v : option number) (prev : Filters) : Filters :=
  {| percentageMin := percentageMin prev;
     percentageMax := v;
     nameStartsWith := nameStartsWith prev;
     nameEndsWith := nameEndsWith prev;
     classSection := classSection prev |}.

Definition with_nameStartsWith (v : option jsstring) (prev : Filters)
  : Filters :=
  {| percentageMin := percentageMin prev;
     percentageMax := percentageMax prev;
     nameStartsWith := v;
     nameEndsWith := nameEndsWith prev;
     classSection := classSection prev |}.

Definition with_nameEndsWith (v : option jsstring) (prev : Filters)
  : Filters :=
  {| percentageMin := percentageMin prev;
     percentageMax := percentageMax prev;
     nameStartsWith := nameStartsWith prev;
     nameEndsWith := v;
     classSection := classSection prev |}.

Definition with_classSection (v : option jsstring) (prev : Filters)
  : Filters :=
  {| percentageMin := percentageMin prev;
     percentageMax := percentageMax prev;
     nameStartsWith := nameStartsWith prev;
     nameEndsWith := nameEndsWith prev;
     classSection := v |}.

(** The calls [handleFilterChange(filterType, value)] in which the value
    has the type the [filters] state declares for the key. *)
Inductive FilterChange : Type :=
| change_percentageMin (value : option number)
| change_percentageMax (value : option number)
| change_nameStartsWith (value : option jsstring)
| change_nameEndsWith (value : option jsstring)
| change_classSection (value : option jsstring).

Definition setSortConfig (v : SortConfig) (st : State) : State :=
  {| students := students st;
     filteredStudents := filteredStudents st;
     loading := loading st;
     sortConfig := v;
     filters := filters st |}.

(** [setFilters(prev => update(prev))] *)
Definition setFilters (update : Filters -> Filters) (st : State) : State :=
  {| students := students st;
     filteredStudents := filteredStudents st;
     loading := loading st;
     sortConfig := sortConfig st;
     filters := update (filters st) |}.

Definition handleFilterChange (change : FilterChange) (st : State) : State :=
  setFilters
    match change with
    | change_percentageMin value => with_percentageMin value
    | change_percentageMax value => with_percentageMax value
    | change_nameStartsWith value => with_nameStartsWith value
    | change_nameEndsWith value => with_nameEndsWith value
    | change_classSection value => with_classSection value
    end st.

(* ------------------------------------------------------------------ *)
(** *** [handleSortChange] *)

Definition handleSortChange (by' : jsstring) (order' : Order) (st : State)
  : State :=
  setSortConfig {| by_ := by'; order := order' |} st.

(* ------------------------------------------------------------------ *)
(** *** [getRankBadgeColor] *)

Definition getRankBadgeColor (rank : number) : string :=
  if strict_eq_number rank (Finite 1)
  then "bg-gradient-to-br from-yellow-400 to-yellow-600 text-white"
  else if strict_eq_number rank (Finite 2)
  then "bg-gradient-to-br from-gray-300 to-gray-500 text-white"
  else if strict_eq_number rank (Finite 3)
  then "bg-gradient-to-br from-orange-400 to-orange-600 text-white"
  else "bg-gradient-to-br from-blue-100 to-blue-200 text-blue-800".

(* ------------------------------------------------------------------ *)
(** *** [getPerformanceColor] *)

Definition getPerformanceColor (percentage : number) : string :=
  if ge percentage (Finite 90) then "text-green-600 bg-green-50"
  else if ge percentage (Finite 75) then "text-blue-600 bg-blue-50"
  else if ge percentage (Finite 60) then "text-yellow-600 bg-yellow-50"
  else if ge percentage (Finite 45) then "text-orange-600 bg-orange-50"
  else "text-red-600 bg-red-50".

(* ------------------------------------------------------------------ *)
(** *** What the component renders

    The tree the component returns, with the parts that depend on the
    props and the state; the fixed decoration (icons, layout classes) is
    left out, and the percentage of a card is kept as the number it prints
    with [toFixed(1)]. *)

(** The rank badge of a card: [<Trophy/>], or [<span>#{rank}</span>] *)
Inductive RankBadge : Type :=
| TrophyIcon
| RankNumber (rank : number).

(** One card of the list *)
Record Card : Type := {
  key : jsstring;
  rank_class : string;
  rank_badge : RankBadge;
  shown_name : option jsstring;
  shown_admission_id : option jsstring;
  shown_class_section : jsstring;
  performance_class : string;
  shown_percentage : number
}.

(** The props handed to [<StudentFilterSort/>], the two handlers apart *)
Record FilterSortProps : Type := {
  currentSort : SortConfig;
  filters_prop : Filters;
  availableClasses : list jsstring;
  showClassFilter : bool
}.

Inductive Body : Type :=
| NoStudentsFound
| CardList (cards : list Card).

Inductive Rendered : Type :=
| LoadingSpinner (size : string)
| Page (widget : FilterSortProps) (body : Body).

(** The callback of [filteredStudents.map] *)
Definition card (student : Student) (index : nat) : Card :=
  let rank := succ_index index in
  {| key := id student;
     rank_class := getRankBadgeColor rank;
     rank_badge := if le rank (Finite 3) then TrophyIcon else RankNumber rank;
     shown_name := name student;
     shown_admission_id := admission_id student;
     shown_class_section := class_section student;
     performance_class := getPerformanceColor (latest_percentage student);
     shown_percentage := latest_percentage student |}.

(** The value the component returns, from its props and its state. *)
Definition TeacherRankingSection (teacherClassSections : list jsstring)
    (st : State) : Rendered :=
  if loading st then LoadingSpinner "lg"
  else
    Page {| currentSort := sortConfig st;
            filters_prop := filters st;
            availableClasses := teacherClassSections;
            showClassFilter := true |}
         (if (List.length (filteredStudents st) =? 0)%nat
          then NoStudentsFound
          else CardList (map_indexed card (filteredStudents st))).

End Ranking.

(* ================================================================== *)
(** ** The vocabulary of the specification *)
(* ================================================================== *)

Module Spec.
Import JS Ranking.

(** The numeric order on numbers, NaN being comparable with nothing. *)
Definition num_le (x y : number) : Prop :=
  match x, y with
  | NaN, _ | _, NaN => False
  | NegInfinity, _ => True
  | _, PosInfinity => True
  | Finite p, Finite q => (p <= q)%Q
  | _, _ => False
  end.

Definition num_lt (x y : number) : Prop :=
  match x, y with
  | NaN, _ | _, NaN => False
  | NegInfinity, NegInfinity => False
  | PosInfinity, PosInfinity => False
  | NegInfinity, _ => True
  | _, PosInfinity => True
  | Finite p, Finite q => (p < q)%Q
  | _, _ => False
  end.

(** A fetched percentage that is absent, null or zero-falsy (a zero or
    NaN). *)
Definition falsy (v : value) : Prop :=
  v = Undefined \/ v = Null \/ v = Num NaN \/
  exists q, v = Num (Finite q) /\ (q == 0)%Q.

(** The fetch fails: the request is rejected, or it resolves to a result
    that carries an error. *)
Definition failed (settled : Settled) : Prop :=
  match settled with
  | Rejected _ => True
  | Fulfilled r => error r <> None
  end.

(** The user-visible notifications among the events *)
Fixpoint notifications (t : list Event) : list string :=
  match t with
  | [] => []
  | ToastError m :: t' => m :: notifications t'
  | _ :: t' => notifications t'
  end.

(** The requests among the events *)
Fixpoint fetches (t : list Event) : nat :=
  match t with
  | [] => 0
  | Query _ _ _ _ :: t' => S (fetches t')
  | _ :: t' => fetches t'
  end.

(** Every row has a name, as [interface Student] declares. *)
Definition named (l : list Student) : Prop :=
  forall s, In s l -> name s <> None.

(** [s] starts with [p] / ends with [p] *)
Definition starts_with (s p : jsstring) : Prop := exists t, s = p ++ t.
Definition ends_with (s p : jsstring) : Prop := exists t, s = t ++ p.

(** A string filter is specified when it is set to a non-empty string, a
    bound when it is set. *)
Definition specified (x : option jsstring) (p : jsstring) : Prop :=
  x = Some p /\ p <> [].

Section Predicates.
Context {CM : CaseMapping}.

(** The five filter predicates *)
Definition class_section_ok (f : Filters) (r : Student) : Prop :=
  forall c, specified (classSection f) c -> class_section r = c.

Definition lower_bound_ok (f : Filters) (r : Student) : Prop :=
  forall L, percentageMin f = Some L -> num_le L (latest_percentage r).

Definition upper_bound_ok (f : Filters) (r : Student) : Prop :=
  forall U, percentageMax f = Some U -> num_le (latest_percentage r) U.

Definition name_prefix_ok (f : Filters) (r : Student) : Prop :=
  forall p, specified (nameStartsWith f) p ->
    exists n, name r = Some n /\ starts_with (toUpperCase n) p.

Definition name_suffix_ok (f : Filters) (r : Student) : Prop :=
  forall p, specified (nameEndsWith f) p ->
    exists n, name r = Some n /\ ends_with (toUpperCase n) p.

(** A record satisfies every specified filter predicate. *)
Definition satisfies (f : Filters) (r : Student) : Prop :=
  class_section_ok f r /\ lower_bound_ok f r /\ upper_bound_ok f r /\
  name_prefix_ok f r /\ name_suffix_ok f r.

(** The sort keys *)
Inductive SortKey : Type := by_name | by_admission_id | by_percentage.

(** The key a sort configuration is on; a string that names none of the
    three stands for the percentage. *)
Definition active_key (sc : SortConfig) : SortKey :=
  if strict_eq (by_ sc) (str "name") then by_name
  else if strict_eq (by_ sc) (str "admission_id") then by_admission_id
  else by_percentage.

(** The lower-cased string, a missing value being the empty string *)
Definition lowered (x : option jsstring) : jsstring :=
  match x with Some v => toLowerCase v | None => [] end.

(** The percentage as a rational or an infinity, a missing value (NaN)
    being 0 *)
Definition percentage (r : Student) : number :=
  match latest_percentage r with NaN => Finite 0 | x => x end.

Definition sign (c : comparison) : Z :=
  match c with Lt => (-1)%Z | Eq => 0%Z | Gt => 1%Z end.

(** The numeric three-way comparison of two numbers that are not NaN *)
Definition compare_number (x y : number) : comparison :=
  match x, y with
  | Finite p, Finite q => (p ?= q)%Q
  | NegInfinity, NegInfinity => Eq
  | PosInfinity, PosInfinity => Eq
  | NegInfinity, _ => Lt
  | _, NegInfinity => Gt
  | _, PosInfinity => Lt
  | PosInfinity, _ => Gt
  | _, _ => Eq
  end.

(** [compare(a, b)] under a key: negative, zero or positive *)
Definition compare (k : SortKey) (a b : Student) : Z :=
  match k with
  | by_name => sign (compare_string (lowered (name a)) (lowered (name b)))
  | by_admission_id =>
      sign (compare_string (lowered (admission_id a))
                           (lowered (admission_id b)))
  | by_percentage => sign (compare_number (percentage a) (percentage b))
  end.

(** The view is ordered: every two consecutive elements are in the order
    of the key, in the direction of the configuration. *)
Definition ordered (sc : SortConfig) (view : list Student) : Prop :=
  forall l1 a b l2, view = l1 ++ a :: b :: l2 ->
    match order sc with
    | asc => (compare (active_key sc) a b <= 0)%Z
    | desc => (compare (active_key sc) a b >= 0)%Z
    end.
End Predicates.

(** A stored percentage as the loader leaves it: a number that is truthy,
    or exactly [0]. *)
Definition coerced (p : number) : Prop :=
  truthy_number p = true \/ p = zero.

(** The view of a state is the one its record set, filters and sort
    configuration give. *)
Definition in_sync {CM : CaseMapping} (st : State) : Prop :=
  applyFiltersAndSort (students st) (filters st) (sortConfig st)
  = Normal (filteredStudents st).

(** A code unit is a lower-case letter of Basic Latin. *)
Definition lower_case_letter (c : N) : Prop := (97 <= c <= 122)%N.

(** The performance tiers and the style each one is shown in *)
Inductive Tier : Type := excellent | good | fair | weak | poor.

Definition style (t : Tier) : string :=
  match t with
  | excellent => "text-green-600 bg-green-50"
  | good => "text-blue-600 bg-blue-50"
  | fair => "text-yellow-600 bg-yellow-50"
  | weak => "text-orange-600 bg-orange-50"
  | poor => "text-red-600 bg-red-50"
  end.

(** The tier of a percentage, as the specification words it *)
Definition tier_of (p : number) : Tier -> Prop :=
  fun t =>
    (num_le (Finite 90) p /\ t = excellent) \/
    (~ num_le (Finite 90) p /\ num_le (Finite 75) p /\ t = good) \/
    (~ num_le (Finite 75) p /\ num_le (Finite 60) p /\ t = fair) \/
    (~ num_le (Finite 60) p /\ num_le (Finite 45) p /\ t = weak) \/
    (~ num_le (Finite 45) p /\ t = poor).

(** The tiers from the lowest to the highest *)
Definition tier_level (t : Tier) : nat :=
  match t with
  | poor => 0
  | weak => 1
  | fair => 2
  | good => 3
  | excellent => 4
  end.

(** The three medals of the rank badge *)
Definition gold : string :=
  "bg-gradient-to-br from-yellow-400 to-yellow-600 text-white".
Definition silver : string :=
  "bg-gradient-to-br from-gray-300 to-gray-500 text-white".
Definition bronze : string :=
  "bg-gradient-to-br from-orange-400 to-orange-600 text-white".
Definition plain : string :=
  "bg-gradient-to-br from-blue-100 to-blue-200 text-blue-800".

End Spec.

(* ================================================================== *)
(** ** The scenario of three students *)
(* ================================================================== *)

Module Scenario.
Import JS Ranking.

Definition student (n : string) (p : Q) : Student := {|
  id := str n;
  admission_id := Some (str n);
  name := Some (str n);
  class_section := str "10-A";
  class_name := str "10";
  section := str "A";
  latest_percentage := Finite p
|}.

Definition Alice : Student := student "Alice" 92.
Definition bob : Student := student "bob" 60.
Definition Cara : Student := student "Cara" 92.

Definition loaded : list Student := [Alice; bob; Cara].

(** A row that came back without a name *)
Definition nameless : Student := {|
  id := str "s-17";
  admission_id := None;
  name := None;
  class_section := str "10-A";
  class_name := str "10";
  section := str "A";
  latest_percentage := Finite 71
|}.

(** One name in four spellings, and another name *)
Definition spellings : list Student :=
  [student "alice" 10; student "ALICE" 20; student "aLiCe" 30;
   student "bob" 60].

(** A state in which the three students are loaded and shown *)
Definition shown : State := {|
  students := loaded;
  filteredStudents := [Alice; Cara; bob];
  loading := false;
  sortConfig := sortConfig initialState;
  filters := noFilters
|}.

(** A row whose percentage is missing, and the rows of the scenario as the
    store returns them *)
Definition row (n : string) (p : value) : Row := {|
  row_id := str n;
  row_admission_id := Some (str n);
  row_name := Some (str n);
  row_class_section := str "10-A";
  row_class_name := str "10";
  row_section := str "A";
  row_latest_percentage := p
|}.

Definition fetched : list Row :=
  [row "Alice" (Num (Finite 92)); row "Dan" Undefined;
   row "bob" (Num (Finite 60))].

End Scenario.

(* ================================================================== *)
(** ** Facts about the ECMAScript fragment *)
(* ================================================================== *)

Module JSFacts.
Import JS.

#[local] Arguments Qcompare : simpl never.
#[local] Arguments Qeq_bool : simpl never.

(** *** Strings *)

Lemma strict_eq_iff (a b : jsstring) : strict_eq a b = true <-> a = b.
Proof.
  revert b; induction a as [|x a IH]; intros [|y b]; simpl;
    try (split; [discriminate | congruence]); [tauto|].
  rewrite andb_true_iff, N.eqb_eq, IH.
  split; [intros [-> ->]; reflexivity | intros [= -> ->]; auto].
Qed.

Lemma strict_eq_refl (a : jsstring) : strict_eq a a = true.
Proof. apply strict_eq_iff; reflexivity. Qed.

Lemma startsWith_iff (s p : jsstring) :
  startsWith s p = true <-> Spec.starts_with s p.
Proof.
  unfold Spec.starts_with.
  revert s; induction p as [|y p IH]; intros s; simpl.
  - split; [intros _; exists s; reflexivity | trivial].
  - destruct s as [|x s].
    + split; [discriminate | intros [t Ht]; discriminate].
    + rewrite andb_true_iff, N.eqb_eq, IH. split.
      * intros [-> [t ->]]. exists t; reflexivity.
      * intros [t [= -> ->]]. split; [reflexivity | exists t; reflexivity].
Qed.

Lemma endsWith_iff (s p : jsstring) :
  endsWith s p = true <-> Spec.ends_with s p.
Proof.
  unfold endsWith, Spec.ends_with.
  destruct (Nat.leb_spec (List.length p) (List.length s)) as [Hle|Hlt].
  - rewrite strict_eq_iff. split.
    + intros <-. exists (firstn (List.length s - List.length p) s).
      symmetry; apply firstn_skipn.
    + intros [t ->]. rewrite length_app.
      replace (List.length t + List.length p - List.length p)%nat
        with (List.length t + 0)%nat by lia.
      rewrite skipn_app, Nat.add_comm, skipn_all2 by lia.
      replace (0 + List.length t - List.length t)%nat with 0%nat by lia.
      reflexivity.
  - split; [discriminate|]. intros [t ->]. rewrite length_app in Hlt. lia.
Qed.

Lemma compare_string_refl (a : jsstring) : compare_string a a = Eq.
Proof.
  induction a as [|x a IH]; simpl; [reflexivity|].
  rewrite N.compare_refl. exact IH.
Qed.

Lemma compare_string_eq (a b : jsstring) : compare_string a b = Eq -> a = b.
Proof.
  revert b; induction a as [|x a IH]; intros [|y b]; simpl;
    try discriminate; [reflexivity|].
  destruct (N.compare_spec x y) as [->| |]; try discriminate.
  intros H; f_equal; auto.
Qed.

Lemma compare_string_antisym (a b : jsstring) :
  compare_string b a = CompOpp (compare_string a b).
Proof.
  revert b; induction a as [|x a IH]; intros [|y b]; simpl; try reflexivity.
  rewrite (N.compare_antisym x y).
  destruct (N.compare x y); simpl; auto.
Qed.

Lemma compare_string_lt_trans (a b c : jsstring) :
  compare_string a b = Lt -> compare_string b c = Lt ->
  compare_string a c = Lt.
Proof.
  revert b c; induction a as [|x a IH]; intros [|y b] [|z c]; simpl;
    try discriminate; try reflexivity.
  destruct (N.compare_spec x y) as [->|Hxy|Hxy]; try discriminate.
  - destruct (N.compare_spec y z) as [->|Hyz|Hyz]; try discriminate.
    + apply IH.
    + intros; reflexivity.
  - intros _.
    destruct (N.compare_spec y z) as [->|Hyz|Hyz]; try discriminate.
    + intros _. rewrite (proj2 (N.compare_lt_iff x z)) by assumption.
      reflexivity.
    + intros _. rewrite (proj2 (N.compare_lt_iff x z)) by lia.
      reflexivity.
Qed.

Lemma lt_string_irrefl (a : jsstring) : lt_string a a = false.
Proof. unfold lt_string. rewrite compare_string_refl. reflexivity. Qed.

Lemma lt_string_asym (a b : jsstring) :
  lt_string a b = true -> lt_string b a = false.
Proof.
  unfold lt_string. rewrite (compare_string_antisym a b).
  destruct (compare_string a b); simpl; congruence.
Qed.

(** Negative transitivity: [a <= b] and [b <= c] give [a <= c]. *)
Lemma lt_string_negtrans (a b c : jsstring) :
  lt_string b a = false -> lt_string c b = false -> lt_string c a = false.
Proof.
  unfold lt_string.
  rewrite (compare_string_antisym a b), (compare_string_antisym b c),
    (compare_string_antisym a c).
  destruct (compare_string a b) eqn:Eab; simpl; try discriminate; intros _;
  destruct (compare_string b c) eqn:Ebc; simpl; try discriminate; intros _.
  - apply compare_string_eq in Eab, Ebc. subst.
    rewrite compare_string_refl. reflexivity.
  - apply compare_string_eq in Eab. subst. rewrite Ebc. reflexivity.
  - apply compare_string_eq in Ebc. subst. rewrite Eab. reflexivity.
  - rewrite (compare_string_lt_trans _ _ _ Eab Ebc). reflexivity.
Qed.

(** *** Numbers *)

Ltac q_cases :=
  repeat match goal with
  | |- context [(?p ?= ?q)%Q] => destruct (Qcompare_spec p q)
  | H : context [(?p ?= ?q)%Q] |- _ => destruct (Qcompare_spec p q)
  end.

Ltac q_zero_cases :=
  repeat match goal with
  | |- context [Qeq_bool ?p ?z] =>
      let E := fresh "E" in
      destruct (Qeq_bool p z) eqn:E;
      [apply Qeq_bool_iff in E | apply Qeq_bool_neq in E]
  end.

Ltac by_cases_on_numbers :=
  simpl in *; q_cases; simpl in *;
  try discriminate; try reflexivity; try tauto; try lra.

Lemma lt_iff (x y : number) : lt x y = true <-> Spec.num_lt x y.
Proof.
  destruct x, y; simpl; try tauto; try (split; [discriminate|tauto]).
  q_cases; split; intros; try discriminate; try reflexivity; lra.
Qed.

Lemma ge_iff (x y : number) : ge x y = true <-> Spec.num_le y x.
Proof.
  unfold ge. destruct x, y; simpl; try tauto;
    try (split; [discriminate|tauto]).
  q_cases; simpl; split; intros; try discriminate; try reflexivity; lra.
Qed.

Lemma le_iff (x y : number) : le x y = true <-> Spec.num_le x y.
Proof.
  unfold le. destruct x, y; simpl; try tauto;
    try (split; [discriminate|tauto]).
  q_cases; simpl; split; intros; try discriminate; try reflexivity; lra.
Qed.

Lemma lt_irrefl (x : number) : lt x x = false.
Proof. destruct x; by_cases_on_numbers. Qed.

Lemma lt_asym (x y : number) : lt x y = true -> lt y x = false.
Proof. destruct x, y; by_cases_on_numbers. Qed.

(** Negative transitivity holds as soon as the middle number is not NaN. *)
Lemma lt_negtrans (a b c : number) :
  isNaN b = false ->
  lt b a = false -> lt c b = false -> lt c a = false.
Proof. destruct a, b, c; by_cases_on_numbers. Qed.

Lemma or_zero_not_NaN (v : value) : isNaN (or_zero v) = false.
Proof. destruct v as [| |[]]; simpl; try reflexivity.
  destruct (Qeq_bool q 0); reflexivity. Qed.

(** [v || 0] is exactly [0] on a falsy value and the number itself
    otherwise. *)
Lemma or_zero_falsy (v : value) : Spec.falsy v -> or_zero v = zero.
Proof.
  intros [->|[->|[->|[q [-> Hq]]]]]; try reflexivity.
  simpl. rewrite (proj2 (Qeq_bool_iff q 0) Hq). reflexivity.
Qed.

Lemma or_zero_truthy (v : value) :
  ~ Spec.falsy v -> exists n, v = Num n /\ or_zero v = n.
Proof.
  unfold Spec.falsy. intros H. destruct v as [| |n]; try tauto.
  exists n; split; [reflexivity|]. simpl.
  destruct n; simpl; try reflexivity; [tauto|].
  destruct (Qeq_bool q 0) eqn:E; [|reflexivity].
  exfalso. apply H. do 3 right. exists q. split; [reflexivity|].
  apply Qeq_bool_iff; assumption.
Qed.

(** *** Exceptions and [filter] *)

Lemma filter_throwing_normal {E A} (f : A -> completion E bool)
    (g : A -> bool) (l : list A) :
  (forall x, In x l -> f x = Normal (g x)) ->
  filter_throwing f l = Normal (List.filter g l).
Proof.
  induction l as [|x l IH]; intros H; simpl; [reflexivity|].
  rewrite (H x) by (left; reflexivity). simpl.
  rewrite IH by (intros y Hy; apply H; right; exact Hy). simpl.
  destruct (g x); reflexivity.
Qed.

Lemma filter_throwing_throw {E A} (f : A -> completion E bool)
    (l : list A) (x : A) (e : E) :
  In x l -> (forall y, In y l -> forall e', f y = Throw e' -> e' = e) ->
  f x = Throw e -> filter_throwing f l = Throw e.
Proof.
  induction l as [|y l IH]; intros Hin Hall Hx; [destruct Hin|].
  simpl. destruct (f y) as [k|e'] eqn:Ey; simpl.
  - destruct Hin as [->|Hin]; [congruence|].
    rewrite IH; auto. intros z Hz. apply Hall. right; exact Hz.
  - f_equal. eapply Hall; [left; reflexivity | exact Ey].
Qed.

(** *** [sort] *)

Section SortFacts.
Context {A : Type}.
Variable comparefn : A -> A -> Z.

Lemma insert_perm (x : A) (l : list A) :
  Permutation (x :: l) (insert comparefn x l).
Proof.
  induction l as [|y l IH]; simpl; [reflexivity|].
  destruct (comparefn x y <=? 0)%Z; [reflexivity|].
  rewrite perm_swap. constructor. exact IH.
Qed.

Lemma sort_perm (l : list A) : Permutation l (sort comparefn l).
Proof.
  induction l as [|x l IH]; simpl; [constructor|].
  rewrite <- insert_perm. constructor. exact IH.
Qed.

Lemma sort_in (l : list A) (x : A) : In x (sort comparefn l) <-> In x l.
Proof.
  split; apply Permutation_in;
    [symmetry|]; apply sort_perm.
Qed.

Lemma sort_ext (comparefn' : A -> A -> Z) (l : list A) :
  (forall a b, comparefn a b = comparefn' a b) ->
  sort comparefn l = sort comparefn' l.
Proof.
  intros Hext. induction l as [|x l IH]; simpl; [reflexivity|].
  rewrite IH. generalize (sort comparefn' l) as s.
  induction s as [|y s IHs]; simpl; [reflexivity|].
  rewrite Hext, IHs. reflexivity.
Qed.

Hypothesis Hcons : consistent comparefn.

Lemma cmp_gt_before (a b : A) :
  (comparefn a b > 0)%Z -> before comparefn b a.
Proof.
  intros H. unfold before.
  pose proof (proj2 (cmp_flip Hcons b a) H). lia.
Qed.

Lemma before_antisym (a b : A) :
  before comparefn a b -> before comparefn b a -> comparefn a b = 0%Z.
Proof.
  unfold before. intros Hab Hba.
  destruct (Z.eq_dec (comparefn a b) 0) as [|Hne]; [assumption|].
  assert (Hlt : (comparefn a b < 0)%Z) by lia.
  apply (cmp_flip Hcons) in Hlt. lia.
Qed.

Lemma insert_sorted (x : A) (l : list A) :
  StronglySorted (before comparefn) l ->
  StronglySorted (before comparefn) (insert comparefn x l).
Proof.
  induction 1 as [|y l Hl IH Hy]; simpl.
  - repeat constructor.
  - destruct (Z.leb_spec (comparefn x y) 0) as [Hle|Hgt].
    + constructor; [constructor; assumption|].
      constructor; [exact Hle|].
      rewrite Forall_forall in *. intros z Hz.
      apply (cmp_trans_le Hcons) with y; auto. apply Hy; exact Hz.
    + constructor; [exact IH|].
      rewrite Forall_forall in *. intros z Hz.
      apply (Permutation_in _ (Permutation_sym (insert_perm x l))) in Hz.
      destruct Hz as [<-|Hz]; [|apply Hy; exact Hz].
      apply cmp_gt_before. lia.
Qed.

(** The outcome is in non-decreasing order of the comparator. *)
Lemma sort_sorted (l : list A) :
  StronglySorted (before comparefn) (sort comparefn l).
Proof.
  induction l as [|x l IH]; simpl; [constructor|].
  apply insert_sorted; exact IH.
Qed.

Lemma ties_insert (x a : A) (l : list A) :
  ties comparefn x (insert comparefn a l) = ties comparefn x (a :: l).
Proof.
  induction l as [|y l IH]; [reflexivity|].
  simpl insert. destruct (Z.leb_spec (comparefn a y) 0) as [Hle|Hgt];
    [reflexivity|].
  unfold ties in *. simpl in *. rewrite IH.
  destruct (Z.eqb_spec (comparefn x a) 0) as [Hxa|Hxa]; [|reflexivity].
  destruct (Z.eqb_spec (comparefn x y) 0) as [Hxy|Hxy]; [|reflexivity].
  exfalso.
  assert (Hax : before comparefn a x).
  { unfold before.
    destruct (Z_lt_le_dec 0 (comparefn a x)) as [Hpos|]; [|assumption].
    assert (comparefn x a < 0)%Z
      by (apply (cmp_flip Hcons); lia). lia. }
  assert (before comparefn a y).
  { apply (cmp_trans_le Hcons) with x; [exact Hax|]. unfold before; lia. }
  unfold before in *; lia.
Qed.

(** Elements that compare equal keep their relative order. *)
Lemma sort_stable (l : list A) (x : A) :
  ties comparefn x (sort comparefn l) = ties comparefn x l.
Proof.
  induction l as [|a l IH]; simpl; [reflexivity|].
  rewrite ties_insert. unfold ties in *. simpl. rewrite IH. reflexivity.
Qed.

Lemma ties_head (a : A) (l : list A) :
  ties comparefn a (a :: l) = a :: ties comparefn a l.
Proof.
  unfold ties. simpl. rewrite (cmp_refl Hcons). reflexivity.
Qed.

Lemma ties_in (x y : A) (l : list A) : In y (ties comparefn x l) -> In y l.
Proof. unfold ties. rewrite filter_In. tauto. Qed.

(** There is one list only that is in order and keeps the order of the
    ties of [l]: whatever way an engine sorts, it returns [sort l]. *)
Lemma stable_sorted_unique (l1 l2 : list A) :
  StronglySorted (before comparefn) l1 ->
  StronglySorted (before comparefn) l2 ->
  (forall x, ties comparefn x l1 = ties comparefn x l2) ->
  l1 = l2.
Proof.
  intros H1; revert l2.
  induction H1 as [|a l1 Hs1 IH Ha]; intros l2 H2 Hties.
  - destruct l2 as [|b l2]; [reflexivity|].
    specialize (Hties b). rewrite ties_head in Hties. discriminate.
  - destruct l2 as [|b l2].
    { specialize (Hties a). rewrite ties_head in Hties. discriminate. }
    inversion H2 as [|? ? Hs2 Hb]; subst.
    assert (Hab : a = b).
    { pose proof (Hties a) as Ta. pose proof (Hties b) as Tb.
      rewrite ties_head in Ta, Tb.
      assert (Ia : In a (b :: l2))
        by (apply ties_in with a; rewrite <- Ta; left; reflexivity).
      assert (Ib : In b (a :: l1))
        by (apply ties_in with b; rewrite Tb; left; reflexivity).
      destruct Ia as [->|Ia]; [reflexivity|].
      destruct Ib as [->|Ib]; [reflexivity|].
      rewrite Forall_forall in Ha, Hb.
      pose proof (before_antisym _ _ (Ha _ Ib) (Hb _ Ia)) as E.
      unfold ties in Ta. simpl in Ta. rewrite E in Ta. simpl in Ta.
      congruence. }
    subst b. f_equal. apply IH; [exact Hs2|].
    intros x. specialize (Hties x). unfold ties in *. simpl in Hties.
    destruct (comparefn x a =? 0)%Z; congruence.
Qed.

Lemma sort_unique (l l' : list A) :
  StronglySorted (before comparefn) l' ->
  (forall x, ties comparefn x l' = ties comparefn x l) ->
  l' = sort comparefn l.
Proof.
  intros Hs Ht. apply stable_sorted_unique; [exact Hs | apply sort_sorted|].
  intros x. rewrite sort_stable. apply Ht.
Qed.
End SortFacts.

Lemma sorted_consecutive {A} (R : A -> A -> Prop) (l1 l2 : list A) (a b : A) :
  StronglySorted R (l1 ++ a :: b :: l2) -> R a b.
Proof.
  induction l1 as [|x l1 IH]; simpl; intros H; inversion H; subst.
  - match goal with F : Forall _ _ |- _ => inversion F; assumption end.
  - apply IH; assumption.
Qed.

Lemma sorted_later {A} (R : A -> A -> Prop) (l1 l2 : list A) (a b : A) :
  StronglySorted R (l1 ++ a :: l2) -> In b l2 -> R a b.
Proof.
  induction l1 as [|x l1 IH]; simpl; intros H Hb; inversion H; subst.
  - match goal with F : Forall _ _ |- _ =>
      rewrite Forall_forall in F; apply F; exact Hb end.
  - apply IH; assumption.
Qed.

(** A comparator that answers by the sign of a strict weak order on keys,
    in one direction or the other, is consistent. *)
Lemma consistent_of_keys {A K} (comparefn : A -> A -> Z)
    (ltb : K -> K -> bool) (key : A -> K) (lo hi : Z) :
  (lo < 0 < hi \/ hi < 0 < lo)%Z ->
  (forall a b, comparefn a b =
     if ltb (key a) (key b) then lo
     else if ltb (key b) (key a) then hi else 0%Z) ->
  (forall a, ltb (key a) (key a) = false) ->
  (forall a b, ltb (key a) (key b) = true -> ltb (key b) (key a) = false) ->
  (forall a b c, ltb (key b) (key a) = false -> ltb (key c) (key b) = false ->
                 ltb (key c) (key a) = false) ->
  consistent comparefn.
Proof.
  intros Hdir Hcmp Hirr Hasym Hneg. split.
  - intros a. rewrite Hcmp, Hirr. reflexivity.
  - intros a b. rewrite !Hcmp.
    destruct (ltb (key a) (key b)) eqn:Eab;
      [rewrite (Hasym _ _ Eab)|destruct (ltb (key b) (key a))]; lia.
  - intros a b c. rewrite !Hcmp. intros Hab Hbc.
    destruct Hdir as [Hdir|Hdir].
    + assert (Eba : ltb (key b) (key a) = false).
      { destruct (ltb (key a) (key b)) eqn:E; [apply Hasym; exact E|].
        destruct (ltb (key b) (key a)); [lia|reflexivity]. }
      assert (Ecb : ltb (key c) (key b) = false).
      { destruct (ltb (key b) (key c)) eqn:E; [apply Hasym; exact E|].
        destruct (ltb (key c) (key b)); [lia|reflexivity]. }
      rewrite (Hneg _ _ _ Eba Ecb).
      destruct (ltb (key a) (key c)); lia.
    + assert (Eab : ltb (key a) (key b) = false).
      { destruct (ltb (key a) (key b)); [lia|reflexivity]. }
      assert (Ebc : ltb (key b) (key c) = false).
      { destruct (ltb (key b) (key c)); [lia|reflexivity]. }
      rewrite (Hneg _ _ _ Ebc Eab).
      destruct (ltb (key c) (key a)); lia.
Qed.

End JSFacts.

(* ================================================================== *)
(** ** Facts about the component *)
(* ================================================================== *)

Module RankingFacts.
Import JS Ranking JSFacts.

#[local] Arguments Qcompare : simpl never.
#[local] Arguments Qeq_bool : simpl never.

Lemma filter_all {A} (g : A -> bool) (l : list A) :
  (forall x, In x l -> g x = true) -> List.filter g l = l.
Proof.
  induction l as [|x l IH]; intros H; simpl; [reflexivity|].
  rewrite (H x) by (left; reflexivity).
  rewrite IH by (intros; apply H; right; assumption). reflexivity.
Qed.

Lemma filter_andb {A} (g h : A -> bool) (l : list A) :
  List.filter h (List.filter g l) = List.filter (fun x => g x && h x) l.
Proof.
  induction l as [|x l IH]; simpl; [reflexivity|].
  destruct (g x); simpl; [destruct (h x)|]; rewrite IH; reflexivity.
Qed.

Lemma filter_swap {A} (g h : A -> bool) (l : list A) :
  List.filter h (List.filter g l) = List.filter g (List.filter h l).
Proof.
  rewrite !filter_andb. apply filter_ext. intros; apply andb_comm.
Qed.

Section PipelineFacts.
Context {CM : CaseMapping}.

(** The three filters on the class section and on the bounds *)
Lemma bounds_stages (f : Filters) (l : list Student) :
  let filtered := l in
  let filtered :=
    match classSection f with
    | Some c =>
        if truthy_string c
        then List.filter (fun s => strict_eq (class_section s) c) filtered
        else filtered
    | None => filtered
    end in
  let filtered :=
    match percentageMin f with
    | Some m => List.filter (fun s => ge (latest_percentage s) m) filtered
    | None => filtered
    end in
  match percentageMax f with
  | Some m => List.filter (fun s => le (latest_percentage s) m) filtered
  | None => filtered
  end = List.filter (passes f) l.
Proof.
  unfold passes. cbv zeta.
  destruct (classSection f) as [c|]; [destruct (truthy_string c)|];
    destruct (percentageMin f); destruct (percentageMax f);
    rewrite ?filter_andb;
    first [ apply filter_ext; intros; simpl;
            rewrite ?andb_true_r, ?andb_assoc; reflexivity
          | symmetry; apply filter_all; intros; reflexivity ].
Qed.

(** One name filter *)
Lemma name_stage (test : jsstring -> jsstring -> bool)
    (x : option jsstring) (l : list Student) :
  match x with
  | Some p =>
      if truthy_string p
      then filter_throwing
             (fun s => bind (name_toUpperCase s)
                            (fun u => Normal (test u p))) l
      else Normal l
  | None => Normal l
  end =
  if active x && negb (forallb has_name l) then Throw TypeError
  else Normal (List.filter (name_test test x) l).
Proof.
  unfold active, name_test.
  destruct x as [p|]; [destruct (truthy_string p)|]; simpl;
    try (rewrite filter_all by (intros; reflexivity); reflexivity).
  destruct (forallb has_name l) eqn:F; simpl.
  - apply filter_throwing_normal. intros s Hs.
    rewrite forallb_forall in F. specialize (F s Hs).
    unfold has_name, name_toUpperCase in *.
    destruct (name s); [reflexivity|discriminate].
  - assert (Hex : exists s, In s l /\ has_name s = false).
    { clear -F. induction l as [|s l IH]; simpl in F; [discriminate|].
      destruct (has_name s) eqn:Hs.
      - destruct (IH F) as [s' [? ?]]. exists s'. split; [right|]; auto.
      - exists s. split; [left|]; auto. }
    destruct Hex as [s [Hin Hs]].
    apply filter_throwing_throw with s; [exact Hin| |].
    + intros y _ e'. unfold name_toUpperCase.
      destruct (name y); simpl; congruence.
    + unfold has_name, name_toUpperCase in *.
      destruct (name s); [discriminate|reflexivity].
Qed.

Lemma name_test_has_name test x s :
  active x = true -> name_test test x s = true -> has_name s = true.
Proof.
  unfold active, name_test, has_name.
  destruct x as [p|]; [|discriminate]. intros ->.
  destruct (name s); [reflexivity|discriminate].
Qed.

(** The body of [applyFiltersAndSort] in one equation: it throws a
    TypeError when a name filter meets a row without a name, and
    otherwise sorts the rows the filters keep. *)
Lemma outcome (students : list Student) (f : Filters) (sc : SortConfig) :
  applyFiltersAndSort students f sc =
  if throws f students then Throw TypeError
  else Normal (sort (comparefn sc) (List.filter (keeps f) students)).
Proof.
  unfold applyFiltersAndSort. cbv zeta.
  rewrite (bounds_stages f students).
  rewrite (name_stage startsWith). unfold throws.
  set (l := List.filter (passes f) students).
  destruct (forallb has_name l) eqn:F.
  - rewrite !andb_false_r. simpl bind.
    rewrite (name_stage endsWith).
    replace (forallb has_name
               (List.filter (name_test startsWith (nameStartsWith f)) l))
      with true.
    + rewrite andb_false_r. simpl. unfold l.
      rewrite !filter_andb. do 2 f_equal. apply filter_ext.
      intros; unfold keeps; rewrite andb_assoc; reflexivity.
    + symmetry. apply forallb_forall. intros s Hs.
      apply filter_In in Hs. rewrite forallb_forall in F.
      apply F, Hs.
  - simpl negb. rewrite !andb_true_r.
    destruct (active (nameStartsWith f)) eqn:Ap; simpl; [reflexivity|].
    rewrite (name_stage endsWith).
    destruct (active (nameEndsWith f)) eqn:As; simpl.
    + replace (forallb has_name
                 (List.filter (name_test startsWith (nameStartsWith f)) l))
        with false; [reflexivity|].
      rewrite filter_all, F; [reflexivity|].
      intros s _. unfold name_test, active in *.
      destruct (nameStartsWith f); [rewrite Ap|]; reflexivity.
    + unfold l. rewrite !filter_andb. do 2 f_equal. apply filter_ext.
      intros; unfold keeps; rewrite andb_assoc; reflexivity.
Qed.

(** **** The filters keep the rows that satisfy every specified
    predicate *)

Lemma truthy_string_iff (p : jsstring) : truthy_string p = true <-> p <> [].
Proof. destruct p; simpl; split; congruence. Qed.

Lemma class_test_iff (f : Filters) (r : Student) :
  match classSection f with
  | Some c => if truthy_string c then strict_eq (class_section r) c else true
  | None => true
  end = true <-> Spec.class_section_ok f r.
Proof.
  unfold Spec.class_section_ok, Spec.specified.
  destruct (classSection f) as [c|].
  - destruct (truthy_string c) eqn:T.
    + rewrite strict_eq_iff. split.
      * intros E c' [[= <-] _]. exact E.
      * intros H. apply H. split; [reflexivity|].
        apply truthy_string_iff; exact T.
    + split; [|reflexivity]. intros _ c' [[= <-] Hne].
      apply truthy_string_iff in Hne. congruence.
  - split; [|reflexivity]. intros _ c' [[=] _].
Qed.

Lemma lower_test_iff (f : Filters) (r : Student) :
  match percentageMin f with
  | Some m => ge (latest_percentage r) m
  | None => true
  end = true <-> Spec.lower_bound_ok f r.
Proof.
  unfold Spec.lower_bound_ok. destruct (percentageMin f) as [m|].
  - rewrite ge_iff. split; [intros H L [= <-]; exact H | auto].
  - split; [intros _ L [=] | reflexivity].
Qed.

Lemma upper_test_iff (f : Filters) (r : Student) :
  match percentageMax f with
  | Some m => le (latest_percentage r) m
  | None => true
  end = true <-> Spec.upper_bound_ok f r.
Proof.
  unfold Spec.upper_bound_ok. destruct (percentageMax f) as [m|].
  - rewrite le_iff. split; [intros H U [= <-]; exact H | auto].
  - split; [intros _ U [=] | reflexivity].
Qed.

Lemma name_test_iff (test : jsstring -> jsstring -> bool)
    (holds : jsstring -> jsstring -> Prop) (x : option jsstring)
    (r : Student) :
  (forall s p, test s p = true <-> holds s p) ->
  name_test test x r = true <->
  (forall p, Spec.specified x p ->
     exists n, name r = Some n /\ holds (toUpperCase n) p).
Proof.
  intros Htest. unfold name_test, Spec.specified.
  destruct x as [p|].
  - destruct (truthy_string p) eqn:T.
    + destruct (name r) as [n|].
      * rewrite Htest. split.
        -- intros H p' [[= <-] _]. exists n. auto.
        -- intros H. destruct (H p) as [n' [[= <-] Hn]]; [|exact Hn].
           split; [reflexivity | apply truthy_string_iff; exact T].
      * split; [discriminate|]. intros H.
        destruct (H p) as [n' [[=] _]].
        split; [reflexivity | apply truthy_string_iff; exact T].
    + split; [|reflexivity]. intros _ p' [[= <-] Hne].
      apply truthy_string_iff in Hne. congruence.
  - split; [|reflexivity]. intros _ p' [[=] _].
Qed.

Lemma keeps_iff (f : Filters) (r : Student) :
  keeps f r = true <-> Spec.satisfies f r.
Proof.
  unfold keeps, passes, Spec.satisfies, Spec.name_prefix_ok,
    Spec.name_suffix_ok.
  rewrite !andb_true_iff, class_test_iff, lower_test_iff, upper_test_iff.
  rewrite (name_test_iff startsWith Spec.starts_with)
    by (intros; apply startsWith_iff).
  rewrite (name_test_iff endsWith Spec.ends_with)
    by (intros; apply endsWith_iff).
  tauto.
Qed.

(** The view, when there is one, holds the loaded rows that satisfy the
    filters. *)
Lemma in_view_iff (students : list Student) (f : Filters)
    (sc : SortConfig) (view : list Student) (r : Student) :
  applyFiltersAndSort students f sc = Normal view ->
  (In r view <-> In r students /\ Spec.satisfies f r).
Proof.
  rewrite outcome. destruct (throws f students); [discriminate|].
  intros [= <-]. rewrite sort_in, filter_In, keeps_iff. tauto.
Qed.

(** There is a view as soon as every row has a name... *)
Lemma returns_when_named (students : list Student) (f : Filters)
    (sc : SortConfig) :
  (forall s, In s students -> name s <> None) ->
  exists view, applyFiltersAndSort students f sc = Normal view.
Proof.
  intros Hnamed. rewrite outcome. unfold throws.
  replace (forallb has_name (List.filter (passes f) students)) with true.
  - rewrite andb_false_r. eexists; reflexivity.
  - symmetry. apply forallb_forall. intros s Hs.
    apply filter_In in Hs. unfold has_name.
    destruct (name s) eqn:E; [reflexivity|].
    exfalso. apply (Hnamed s); tauto.
Qed.

(** ... or no name filter is active. *)
Lemma returns_without_name_filter (students : list Student) (f : Filters)
    (sc : SortConfig) :
  active (nameStartsWith f) = false -> active (nameEndsWith f) = false ->
  exists view, applyFiltersAndSort students f sc = Normal view.
Proof.
  intros H1 H2. rewrite outcome. unfold throws. rewrite H1, H2.
  eexists; reflexivity.
Qed.

(** **** The comparator *)

Lemma lower_or_empty_lowered (x : option jsstring) :
  lower_or_empty x = Spec.lowered x.
Proof.
  destruct x as [v|]; simpl; [|reflexivity].
  destruct (toLowerCase v); reflexivity.
Qed.

Lemma comparefn_consistent (sc : SortConfig) : consistent (comparefn sc).
Proof.
  set (lo := match order sc with asc => (-1)%Z | desc => 1%Z end).
  set (hi := match order sc with asc => 1%Z | desc => (-1)%Z end).
  assert (Hdir : (lo < 0 < hi \/ hi < 0 < lo)%Z)
    by (unfold lo, hi; destruct (order sc); lia).
  destruct (strict_eq (by_ sc) (str "name")) eqn:E1;
    [|destruct (strict_eq (by_ sc) (str "admission_id")) eqn:E2].
  - apply consistent_of_keys with (ltb := lt_string)
      (key := fun s => lower_or_empty (name s)) (lo := lo) (hi := hi);
      auto using lt_string_irrefl, lt_string_asym.
    + intros a b. unfold comparefn. rewrite E1. reflexivity.
    + intros a b c. apply lt_string_negtrans.
  - apply consistent_of_keys with (ltb := lt_string)
      (key := fun s => lower_or_empty (admission_id s))
      (lo := lo) (hi := hi);
      auto using lt_string_irrefl, lt_string_asym.
    + intros a b. unfold comparefn. rewrite E1, E2. reflexivity.
    + intros a b c. apply lt_string_negtrans.
  - apply consistent_of_keys with (ltb := lt)
      (key := fun s => or_zero (Num (latest_percentage s)))
      (lo := lo) (hi := hi);
      auto using lt_irrefl, lt_asym.
    + intros a b. unfold comparefn. rewrite E1, E2.
      destruct (strict_eq (by_ sc) (str "latest_percentage"));
        reflexivity.
    + intros a b c. apply lt_negtrans, or_zero_not_NaN.
Qed.

Lemma sign_string_lt (a b : jsstring) :
  (if lt_string a b then (-1)%Z else if lt_string b a then 1%Z else 0%Z)
  = Spec.sign (compare_string a b).
Proof.
  unfold lt_string. rewrite (compare_string_antisym a b).
  destruct (compare_string a b); reflexivity.
Qed.

Lemma sign_number_lt (a b : Student) :
  (if lt (or_zero (Num (latest_percentage a)))
         (or_zero (Num (latest_percentage b))) then (-1)%Z
   else if gt (or_zero (Num (latest_percentage a)))
              (or_zero (Num (latest_percentage b))) then 1%Z else 0%Z)
  = Spec.sign (Spec.compare_number (Spec.percentage a) (Spec.percentage b)).
Proof.
  unfold gt, zero, Spec.percentage.
  destruct (latest_percentage a) as [| |p|],
           (latest_percentage b) as [| |q|]; simpl; try reflexivity;
    q_zero_cases; simpl; try reflexivity;
    q_cases; simpl; try reflexivity; exfalso; lra.
Qed.

(** In either direction the comparator is the three-way comparison of
    the key, with its sign flipped when descending. *)
Lemma comparefn_compare (sc : SortConfig) (a b : Student) :
  comparefn sc a b =
  match order sc with
  | asc => Spec.compare (Spec.active_key sc) a b
  | desc => (- Spec.compare (Spec.active_key sc) a b)%Z
  end.
Proof.
  unfold comparefn, Spec.compare, Spec.active_key.
  destruct (strict_eq (by_ sc) (str "name"));
    [|destruct (strict_eq (by_ sc) (str "admission_id"));
      [|destruct (strict_eq (by_ sc) (str "latest_percentage"))]];
    cbv zeta;
    rewrite <- ?sign_string_lt, <- ?sign_number_lt,
      <- ?lower_or_empty_lowered;
    destruct (order sc);
    repeat match goal with |- context [if ?c then _ else _] =>
      destruct c end; reflexivity.
Qed.

(** Any view the pipeline returns is in the order of the comparator... *)
Lemma view_sorted (students : list Student) (f : Filters)
    (sc : SortConfig) (view : list Student) :
  applyFiltersAndSort students f sc = Normal view ->
  StronglySorted (before (comparefn sc)) view.
Proof.
  rewrite outcome. destruct (throws f students); [discriminate|].
  intros [= <-]. apply sort_sorted, comparefn_consistent.
Qed.

(** ... and a permutation of the rows the filters keep. *)
Lemma view_perm (students : list Student) (f : Filters)
    (sc : SortConfig) (view : list Student) :
  applyFiltersAndSort students f sc = Normal view ->
  Permutation (List.filter (keeps f) students) view.
Proof.
  rewrite outcome. destruct (throws f students); [discriminate|].
  intros [= <-]. apply sort_perm.
Qed.

(** **** Setting one bound *)

Lemma passes_with_percentageMin (m : number) (f : Filters) (s : Student) :
  passes (with_percentageMin (Some m) f) s =
  ge (latest_percentage s) m && passes (with_percentageMin None f) s.
Proof. unfold passes; cbn. btauto. Qed.

Lemma passes_with_percentageMax (m : number) (f : Filters) (s : Student) :
  passes (with_percentageMax (Some m) f) s =
  le (latest_percentage s) m && passes (with_percentageMax None f) s.
Proof. unfold passes; cbn. btauto. Qed.

(** A bound that is set, whatever its value, is a filter on the loaded
    rows ahead of the rest of the pipeline. *)
Lemma applyFiltersAndSort_with_percentageMin (m : number)
    (students : list Student) (f : Filters) (sc : SortConfig) :
  applyFiltersAndSort students (with_percentageMin (Some m) f) sc =
  applyFiltersAndSort
    (List.filter (fun s => ge (latest_percentage s) m) students)
    (with_percentageMin None f) sc.
Proof.
  rewrite !outcome. unfold throws, keeps. rewrite !filter_andb. cbn.
  rewrite (filter_ext _ _ (passes_with_percentageMin m f)).
  replace
    (List.filter
       (fun s => passes (with_percentageMin (Some m) f) s &&
                 name_test startsWith (nameStartsWith f) s &&
                 name_test endsWith (nameEndsWith f) s) students)
    with
    (List.filter
       (fun x => ge (latest_percentage x) m &&
                 (passes (with_percentageMin None f) x &&
                  name_test startsWith (nameStartsWith f) x &&
                  name_test endsWith (nameEndsWith f) x)) students);
    [reflexivity|].
  apply filter_ext. intros s.
  rewrite passes_with_percentageMin. btauto.
Qed.

Lemma applyFiltersAndSort_with_percentageMax (m : number)
    (students : list Student) (f : Filters) (sc : SortConfig) :
  applyFiltersAndSort students (with_percentageMax (Some m) f) sc =
  applyFiltersAndSort
    (List.filter (fun s => le (latest_percentage s) m) students)
    (with_percentageMax None f) sc.
Proof.
  rewrite !outcome. unfold throws, keeps. rewrite !filter_andb. cbn.
  rewrite (filter_ext _ _ (passes_with_percentageMax m f)).
  replace
    (List.filter
       (fun s => passes (with_percentageMax (Some m) f) s &&
                 name_test startsWith (nameStartsWith f) s &&
                 name_test endsWith (nameEndsWith f) s) students)
    with
    (List.filter
       (fun x => le (latest_percentage x) m &&
                 (passes (with_percentageMax None f) x &&
                  name_test startsWith (nameStartsWith f) x &&
                  name_test endsWith (nameEndsWith f) x)) students);
    [reflexivity|].
  apply filter_ext. intros s.
  rewrite passes_with_percentageMax. btauto.
Qed.
End PipelineFacts.

(** The effect changes the view only, and running it again changes
    nothing. *)
Lemma run_applyFiltersAndSort_idempotent {CM : CaseMapping} (st st' : State) :
  run_applyFiltersAndSort st = Normal st' ->
  students st' = students st /\ sortConfig st' = sortConfig st /\
  filters st' = filters st /\ loading st' = loading st /\
  run_applyFiltersAndSort st' = Normal st'.
Proof.
  unfold run_applyFiltersAndSort.
  destruct (applyFiltersAndSort (students st) (filters st) (sortConfig st))
    as [view|e] eqn:E; simpl; [|discriminate].
  intros [= <-]. cbn. rewrite E. repeat split; reflexivity.
Qed.

(** *** The loader *)

Lemma notifications_app (t t' : list Event) :
  Spec.notifications (t ++ t') =
  (Spec.notifications t ++ Spec.notifications t')%list.
Proof.
  induction t as [|[] t IH]; simpl; rewrite ?IH; reflexivity.
Qed.

Lemma fetches_app (t t' : list Event) :
  Spec.fetches (t ++ t') = (Spec.fetches t + Spec.fetches t')%nat.
Proof.
  induction t as [|[] t IH]; simpl; rewrite ?IH; reflexivity.
Qed.

(** With no class section the loader only clears the loading flag. *)
Lemma loadStudents_empty (settled : Settled) (w : World) :
  loadStudents [] settled w =
  (Normal tt, {| state := setLoading false (state w); trace := trace w |}).
Proof. reflexivity. Qed.

(** A failed fetch: the request, the log line, the notification, and the
    loading flag cleared. *)
Lemma loadStudents_failure (cs : list jsstring) (settled : Settled)
    (w : World) :
  cs <> [] -> Spec.failed settled ->
  exists e,
    loadStudents cs settled w =
    (Normal tt,
     {| state := setLoading false (state w);
        trace := trace w ++
          [Query "students" cs "latest_percentage" false;
           ConsoleError "Error loading students:" e;
           ToastError "Failed to load students"] |}).
Proof.
  intros Hcs Hfail. destruct cs as [|c cs]; [congruence|].
  destruct settled as [[d [e|]]|e]; simpl in Hfail; try congruence;
    exists e; unfold loadStudents; cbn; rewrite <- !app_assoc; reflexivity.
Qed.

(** A fetch that brings rows: they are stored coerced. *)
Lemma loadStudents_success (cs : list jsstring) (rows : list Row)
    (w : World) :
  cs <> [] ->
  loadStudents cs (Fulfilled {| data := Some rows; error := None |}) w =
  (Normal tt,
   {| state := setLoading false (setStudents (List.map coerce rows) (state w));
      trace := trace w ++ [Query "students" cs "latest_percentage" false] |}).
Proof.
  intros Hcs. destruct cs as [|c cs]; [congruence|]. reflexivity.
Qed.

End RankingFacts.

(* ================================================================== *)
(** ** The properties of the specification *)
(* ================================================================== *)

Module Properties.
Import JS Ranking JSFacts RankingFacts Scenario.

#[local] Arguments Qcompare : simpl never.
#[local] Arguments Qeq_bool : simpl never.

(** C1.  When the fetch fails (the request is rejected, or the result
    carries an error), the loader, from any prior state, ends normally
    having emitted exactly one notification (after one request); the
    record set, the derived view and what the view is derived from are as
    they were, and the loading flag is false. *)
Theorem fetch_failure_reported (cs : list jsstring) (settled : Settled)
    (w : World) :
  cs <> [] -> Spec.failed settled ->
  let w' := snd (loadStudents cs settled w) in
  fst (loadStudents cs settled w) = Normal tt /\
  Spec.notifications (trace w') =
    (Spec.notifications (trace w) ++ ["Failed to load students"%string])%list /\
  Spec.fetches (trace w') = S (Spec.fetches (trace w)) /\
  students (state w') = students (state w) /\
  filteredStudents (state w') = filteredStudents (state w) /\
  sortConfig (state w') = sortConfig (state w) /\
  filters (state w') = filters (state w) /\
  loading (state w') = false.
Proof.
  intros Hcs Hfail.
  destruct (loadStudents_failure cs settled w Hcs Hfail) as [e ->]. cbn.
  rewrite notifications_app, fetches_app. cbn.
  repeat split; try reflexivity. lia.
Qed.

Lemma fetch_failure_reported_witness :
  let w := {| state := shown; trace := [] |} in
  let w' := snd (loadStudents [str "10-A"] (Rejected (Rejection "offline")) w) in
  Spec.notifications (trace w') = ["Failed to load students"%string] /\
  students (state w') = loaded /\
  filteredStudents (state w') = [Alice; Cara; bob] /\
  loading (state w') = false.
Proof.
  pose proof (fetch_failure_reported [str "10-A"]
                (Rejected (Rejection "offline"))
                {| state := shown; trace := [] |}) as H.
  destruct H as (_ & Hn & _ & Hs & Hv & _ & _ & Hl);
    [discriminate | exact I |].
  repeat split; assumption.
Defined.

(** C2.  With every filter field unset the pipeline returns a view, for
    every loaded set and every sort configuration, and the view is a
    permutation of the loaded set: each loaded record occurs in it as many
    times as it was loaded, none is dropped. *)
Theorem unfiltered_view_is_permutation {CM : CaseMapping}
    (students : list Student) (sc : SortConfig) :
  exists view,
    applyFiltersAndSort students noFilters sc = Normal view /\
    Permutation students view.
Proof.
  exists (sort (comparefn sc) students).
  split; [reflexivity | apply sort_perm].
Qed.

(** C3.  Whatever the loaded set, the filters and the sort configuration,
    the view the pipeline returns is ordered by the active key in the
    active direction: for consecutive elements [a], [b],
    [compare a b <= 0] when ascending and [>= 0] when descending, where
    names and admission identifiers compare as lower-cased strings (a
    missing one as the empty string) and percentages as numbers (a missing
    one as 0).  The pipeline does return a view when every record has a
    name. *)
Theorem view_is_ordered {CM : CaseMapping}
    (students : list Student) (f : Filters) (sc : SortConfig) :
  (Spec.named students ->
   exists view, applyFiltersAndSort students f sc = Normal view) /\
  (forall view, applyFiltersAndSort students f sc = Normal view ->
   Spec.ordered sc view).
Proof.
  split; [apply returns_when_named|].
  intros view Hview l1 a b l2 ->.
  apply view_sorted in Hview. apply sorted_consecutive in Hview.
  unfold before in Hview. rewrite comparefn_compare in Hview.
  destruct (order sc); lia.
Qed.

Lemma view_is_ordered_witness :
  Spec.named loaded /\
  Spec.ordered (CM := BasicLatin) {| by_ := str "name"; order := desc |}
    [Cara; bob; Alice].
Proof.
  split.
  - intros s [<-|[<-|[<-|[]]]]; discriminate.
  - apply (proj2 (view_is_ordered (CM := BasicLatin) loaded noFilters
                    {| by_ := str "name"; order := desc |})).
    reflexivity.
Defined.

(** C4.  Filtering is conjunctive: a record is in the view the pipeline
    returns exactly when it is loaded and satisfies every specified filter
    predicate; in particular, with a lower bound [L] set every record of
    the view has a percentage [>= L], and with an upper bound [U] set a
    percentage [<= U], both bounds inclusive.  The pipeline does return a
    view when every record has a name. *)
Theorem filtering_is_conjunctive {CM : CaseMapping}
    (students : list Student) (f : Filters) (sc : SortConfig) :
  (Spec.named students ->
   exists view, applyFiltersAndSort students f sc = Normal view) /\
  (forall view, applyFiltersAndSort students f sc = Normal view ->
   forall r,
     (In r view <-> In r students /\ Spec.satisfies f r) /\
     (In r view -> forall L, percentageMin f = Some L ->
        Spec.num_le L (latest_percentage r)) /\
     (In r view -> forall U, percentageMax f = Some U ->
        Spec.num_le (latest_percentage r) U)).
Proof.
  split; [apply returns_when_named|].
  intros view Hview r.
  pose proof (in_view_iff students f sc view r Hview) as Hin.
  split; [exact Hin|].
  split; intros Hr; apply Hin in Hr;
    destruct Hr as (_ & _ & Hlo & Hhi & _); assumption.
Qed.

Lemma filtering_is_conjunctive_witness :
  In Alice [Alice; Cara] /\
  Spec.num_le (Finite 92) (latest_percentage Alice).
Proof.
  pose proof (proj2 (filtering_is_conjunctive (CM := BasicLatin) loaded
                       (with_percentageMin (Some (Finite 92)) noFilters)
                       (sortConfig initialState))
                    [Alice; Cara] eq_refl Alice) as (_ & Hlo & _).
  assert (Hin : In Alice [Alice; Cara]) by (left; reflexivity).
  split; [exact Hin | exact (Hlo Hin (Finite 92) eq_refl)].
Defined.

(** C5.  With a name-prefix filter set, a record with a name is in the
    view exactly when it is loaded, satisfies the other filters, and its
    name, upper-cased, starts with the prefix as it stands in the filter;
    the record's own spelling only matters through its upper-casing, and a
    record without a name never survives a non-empty prefix.  The same
    holds for the name-suffix filter with ends-with.  In the scenario of
    Alice (92), bob (60) and Cara (92) the prefix "AL" leaves [Alice]
    alone under every sort configuration, and "alice", "ALICE" and "aLiCe"
    all pass the prefix "AL" and the suffix "CE". *)
Theorem name_filters_match_upper_cased_name :
  (forall (CM : CaseMapping) students f sc view,
     applyFiltersAndSort students f sc = Normal view ->
     (forall p, nameStartsWith f = Some p ->
        (forall r n, name r = Some n ->
           (In r view <->
            In r students /\ Spec.class_section_ok f r /\
            Spec.lower_bound_ok f r /\ Spec.upper_bound_ok f r /\
            Spec.name_suffix_ok f r /\
            Spec.starts_with (toUpperCase n) p)) /\
        (p <> [] -> forall r, In r view -> name r <> None)) /\
     (forall p, nameEndsWith f = Some p ->
        (forall r n, name r = Some n ->
           (In r view <->
            In r students /\ Spec.class_section_ok f r /\
            Spec.lower_bound_ok f r /\ Spec.upper_bound_ok f r /\
            Spec.name_prefix_ok f r /\
            Spec.ends_with (toUpperCase n) p)) /\
        (p <> [] -> forall r, In r view -> name r <> None))) /\
  (forall (CM : CaseMapping) students f sc,
     Spec.named students ->
     exists view, applyFiltersAndSort students f sc = Normal view) /\
  (forall sc,
     applyFiltersAndSort (CM := BasicLatin) loaded
       (with_nameStartsWith (Some (str "AL")) noFilters) sc
     = Normal [Alice]) /\
  (forall sc,
     applyFiltersAndSort (CM := BasicLatin) loaded
       (with_nameStartsWith (Some (str "al")) noFilters) sc
     = Normal []) /\
  (applyFiltersAndSort (CM := BasicLatin) spellings
     (with_nameStartsWith (Some (str "AL")) noFilters)
     (sortConfig initialState)
   = Normal [student "aLiCe" 30; student "ALICE" 20; student "alice" 10] /\
   applyFiltersAndSort (CM := BasicLatin) spellings
     (with_nameEndsWith (Some (str "CE")) noFilters)
     (sortConfig initialState)
   = Normal [student "aLiCe" 30; student "ALICE" 20; student "alice" 10]).
Proof.
  split; [|split; [|split; [|split]]].
  - intros CM students f sc view Hview.
    assert (Hin := fun r => in_view_iff students f sc view r Hview).
    unfold Spec.satisfies in Hin.
    split; intros p Hp; (split; [intros r n Hn|intros Hne r Hr]).
    + rewrite Hin. unfold Spec.name_prefix_ok, Spec.specified. rewrite Hp.
      split.
      * intros (Hs & Hc & Hlo & Hhi & Hpre & Hsuf).
        repeat (split; [assumption|]).
        destruct p as [|c p]; [exists (toUpperCase n); reflexivity|].
        destruct (Hpre (c :: p)) as (n' & Hn' & Hst);
          [split; [reflexivity|discriminate]|].
        congruence.
      * intros (Hs & Hc & Hlo & Hhi & Hsuf & Hpre).
        repeat (split; [assumption|]).
        split; [|assumption].
        intros p' [[= <-] _]. exists n. split; assumption.
    + apply Hin in Hr. destruct Hr as (_ & _ & _ & _ & Hpre & _).
      destruct (Hpre p) as (n & Hn & _); [split; assumption|]. congruence.
    + rewrite Hin. unfold Spec.name_suffix_ok, Spec.specified. rewrite Hp.
      split.
      * intros (Hs & Hc & Hlo & Hhi & Hpre & Hsuf).
        repeat (split; [assumption|]).
        destruct p as [|c p];
          [exists (toUpperCase n); rewrite app_nil_r; reflexivity|].
        destruct (Hsuf (c :: p)) as (n' & Hn' & Hst);
          [split; [reflexivity|discriminate]|].
        congruence.
      * intros (Hs & Hc & Hlo & Hhi & Hpre & Hsuf).
        repeat (split; [assumption|]).
        intros p' [[= <-] _]. exists n. split; assumption.
    + apply Hin in Hr. destruct Hr as (_ & _ & _ & _ & _ & Hsuf).
      destruct (Hsuf p) as (n & Hn & _); [split; assumption|]. congruence.
  - intros CM students f sc. apply returns_when_named.
  - intros sc. reflexivity.
  - intros sc. reflexivity.
  - split; reflexivity.
Qed.

Lemma name_filters_match_upper_cased_name_witness :
  In Alice [Alice] <->
  In Alice loaded /\
  Spec.class_section_ok
    (with_nameStartsWith (Some (str "AL")) noFilters) Alice /\
  Spec.lower_bound_ok
    (with_nameStartsWith (Some (str "AL")) noFilters) Alice /\
  Spec.upper_bound_ok
    (with_nameStartsWith (Some (str "AL")) noFilters) Alice /\
  Spec.name_suffix_ok (CM := BasicLatin)
    (with_nameStartsWith (Some (str "AL")) noFilters) Alice /\
  Spec.starts_with (toUpperCase (CaseMapping := BasicLatin) (str "Alice"))
    (str "AL").
Proof.
  exact (proj1 (proj1 (proj1 name_filters_match_upper_cased_name BasicLatin
           loaded (with_nameStartsWith (Some (str "AL")) noFilters)
           (sortConfig initialState) [Alice] eq_refl)
         (str "AL") eq_refl) Alice (str "Alice") eq_refl).
Defined.

(** C6, as stated, fails: run with an empty list of class sections after
    the three students were loaded and shown, the loader leaves them
    loaded and shown; the record set and the view are not empty
    afterwards. *)
Lemma empty_sections_do_not_clear :
  ~ (forall (settled : Settled) (w : World),
       let w' := snd (loadStudents [] settled w) in
       Spec.fetches (trace w') = Spec.fetches (trace w) /\
       students (state w') = [] /\
       filteredStudents (state w') = [] /\
       loading (state w') = false /\
       Spec.notifications (trace w') = Spec.notifications (trace w)).
Proof.
  intros H.
  destruct (H (Fulfilled {| data := None; error := None |})
              {| state := shown; trace := [] |}) as (_ & Hs & _).
  discriminate Hs.
Qed.

(** C6, amended.  Run with an empty list of class sections, the loader,
    from any prior state, makes no request and emits no notification, ends
    normally with the loading flag false, and leaves the record set, the
    derived view and what the view is derived from as they were; so the
    record set and the view are empty afterwards when they were empty
    before, as they are at the first render. *)
Theorem empty_sections_skip_fetch (settled : Settled) (w : World) :
  let w' := snd (loadStudents [] settled w) in
  fst (loadStudents [] settled w) = Normal tt /\
  trace w' = trace w /\
  students (state w') = students (state w) /\
  filteredStudents (state w') = filteredStudents (state w) /\
  sortConfig (state w') = sortConfig (state w) /\
  filters (state w') = filters (state w) /\
  loading (state w') = false /\
  (state w = initialState ->
   students (state w') = [] /\ filteredStudents (state w') = []).
Proof.
  rewrite loadStudents_empty. cbn.
  repeat split; try reflexivity; rewrite H; reflexivity.
Qed.

Lemma empty_sections_skip_fetch_witness :
  students (state (snd (loadStudents []
                          (Rejected (Rejection "offline"))
                          {| state := initialState; trace := [] |}))) = [].
Proof.
  destruct (empty_sections_skip_fetch (Rejected (Rejection "offline"))
              {| state := initialState; trace := [] |})
    as (_ & _ & _ & _ & _ & _ & _ & Hinit).
  exact (proj1 (Hinit eq_refl)).
Defined.

(** C7.  When the fetch brings rows, each is stored with its percentage
    coerced: a percentage that is absent, null or zero-falsy is stored as
    exactly 0, any other as it is.  In the view of the stored rows sorted
    by percentage, descending, no record with a percentage above 0 comes
    after a record stored with 0; that view exists when every row has a
    name. *)
Theorem missing_percentage_is_zero_and_sorts_last {CM : CaseMapping}
    (cs : list jsstring) (rows : list Row) (w : World) :
  cs <> [] ->
  let w' :=
    snd (loadStudents cs (Fulfilled {| data := Some rows; error := None |}) w)
  in
  let by_percentage_desc :=
    {| by_ := str "latest_percentage"; order := desc |} in
  students (state w') = List.map coerce rows /\
  (forall s, In s rows -> Spec.falsy (row_latest_percentage s) ->
     latest_percentage (coerce s) = Finite 0) /\
  (forall s, In s rows -> ~ Spec.falsy (row_latest_percentage s) ->
     row_latest_percentage s = Num (latest_percentage (coerce s))) /\
  (forall f view,
     applyFiltersAndSort (students (state w')) f by_percentage_desc
       = Normal view ->
     forall front z back, view = (front ++ z :: back)%list ->
       latest_percentage z = Finite 0 ->
       forall r, In r back ->
         ~ Spec.num_lt (Finite 0) (latest_percentage r)) /\
  ((forall s, In s rows -> row_name s <> None) ->
   forall f, exists view,
     applyFiltersAndSort (students (state w')) f by_percentage_desc
       = Normal view).
Proof.
  intros Hcs. rewrite (loadStudents_success cs rows w Hcs). cbn.
  split; [reflexivity|]. split; [|split; [|split]].
  - intros s _ Hs. apply or_zero_falsy. exact Hs.
  - intros s _ Hs. destruct (or_zero_truthy _ Hs) as (n & Hn & Hz).
    change (row_latest_percentage s = Num (or_zero (row_latest_percentage s))).
    rewrite Hz. exact Hn.
  - intros f view Hview l1 z l2 -> Hz r Hr Hpos.
    apply view_sorted in Hview.
    pose proof (sorted_later _ _ _ _ _ Hview Hr) as Hzr.
    unfold before in Hzr. rewrite comparefn_compare in Hzr.
    change (- Spec.compare Spec.by_percentage z r <= 0)%Z in Hzr.
    unfold Spec.compare, Spec.percentage in Hzr. rewrite Hz in Hzr.
    destruct (latest_percentage r) as [| |q|]; simpl in *; try tauto.
    + destruct (Qcompare_spec 0 q); simpl in *; try lia; lra.
    + lia.
  - intros Hnamed f. apply returns_when_named.
    intros s Hs. apply in_map_iff in Hs. destruct Hs as (x & <- & Hx).
    apply Hnamed; exact Hx.
Qed.

Lemma missing_percentage_is_zero_and_sorts_last_witness :
  let w' :=
    snd (loadStudents [str "10-A"]
           (Fulfilled {| data := Some fetched; error := None |})
           {| state := initialState; trace := [] |}) in
  List.map latest_percentage (students (state w'))
    = [Finite 92; Finite 0; Finite 60] /\
  applyFiltersAndSort (CM := BasicLatin) (students (state w')) noFilters
    {| by_ := str "latest_percentage"; order := desc |}
    = Normal (List.map coerce
                [row "Alice" (Num (Finite 92)); row "bob" (Num (Finite 60));
                 row "Dan" Undefined]) /\
  ~ Spec.num_lt (Finite 0) (latest_percentage (coerce (row "Dan" Undefined))).
Proof.
  destruct (missing_percentage_is_zero_and_sorts_last (CM := BasicLatin)
              [str "10-A"] fetched {| state := initialState; trace := [] |})
    as (Hs & _ & _ & Hlast & _); [discriminate|].
  cbv zeta in *. rewrite Hs.
  split; [reflexivity|]. split; [reflexivity|].
  simpl. lra.
Defined.

(** C8.  A sort key that is none of ["name"], ["admission_id"] and
    ["latest_percentage"] gives, for every loaded set, filter set and
    direction, the outcome of the key ["latest_percentage"] in the same
    direction. *)
Theorem unknown_key_sorts_by_percentage {CM : CaseMapping}
    (students : list Student) (f : Filters) (key : jsstring) (o : Order) :
  key <> str "name" -> key <> str "admission_id" ->
  key <> str "latest_percentage" ->
  applyFiltersAndSort students f {| by_ := key; order := o |} =
  applyFiltersAndSort students f
    {| by_ := str "latest_percentage"; order := o |}.
Proof.
  intros H1 H2 H3. rewrite !outcome.
  destruct (throws f students); [reflexivity|].
  f_equal. apply sort_ext. intros a b. unfold comparefn. cbn [by_ order].
  assert (E : forall k, key <> k -> strict_eq key k = false).
  { intros k Hk. destruct (strict_eq key k) eqn:E; [|reflexivity].
    apply strict_eq_iff in E. contradiction. }
  rewrite (E _ H1), (E _ H2), (E _ H3). reflexivity.
Qed.

Lemma unknown_key_sorts_by_percentage_witness :
  applyFiltersAndSort (CM := BasicLatin) loaded noFilters
    {| by_ := str "rank"; order := asc |}
  = Normal [bob; Alice; Cara].
Proof.
  rewrite (unknown_key_sorts_by_percentage (CM := BasicLatin) loaded
             noFilters (str "rank") asc);
    [reflexivity | discriminate | discriminate | discriminate].
Defined.

(** C9.  [getPerformanceColor] is total: every number, NaN and the
    infinities included, gets the style of exactly one tier, which is
    "excellent" from 90 up, otherwise "good" from 75 up, otherwise "fair"
    from 60 up, otherwise "weak" from 45 up, and otherwise "poor"; the
    lower bound of a tier belongs to it (exactly 90 is "excellent"). *)
Theorem performance_tier_by_thresholds :
  (forall p t, getPerformanceColor p = Spec.style t <-> Spec.tier_of p t) /\
  (forall p, exists t, getPerformanceColor p = Spec.style t) /\
  getPerformanceColor (Finite 90) = Spec.style Spec.excellent /\
  getPerformanceColor (Finite 75) = Spec.style Spec.good /\
  getPerformanceColor (Finite 60) = Spec.style Spec.fair /\
  getPerformanceColor (Finite 45) = Spec.style Spec.weak.
Proof.
  assert (Hiff : forall p t,
             getPerformanceColor p = Spec.style t <-> Spec.tier_of p t).
  { intros p t. unfold getPerformanceColor, Spec.tier_of.
    rewrite <- !ge_iff.
    destruct p as [| |q|]; unfold ge, lt; simpl; q_cases; simpl;
      destruct t; simpl; split;
      first [ discriminate
            | intros _; tauto
            | intros _; intuition discriminate
            | intros _; exfalso; lra
            | intuition discriminate ]. }
  split; [exact Hiff|]. split; [|repeat split; reflexivity].
  intros p. unfold getPerformanceColor.
  destruct (ge p (Finite 90)); [exists Spec.excellent; reflexivity|].
  destruct (ge p (Finite 75)); [exists Spec.good; reflexivity|].
  destruct (ge p (Finite 60)); [exists Spec.fair; reflexivity|].
  destruct (ge p (Finite 45)); [exists Spec.weak; reflexivity|].
  exists Spec.poor; reflexivity.
Qed.

(** C10.  A percentage bound set to exactly 0 is applied: the pipeline
    with the lower bound 0 is the pipeline without lower bound run on the
    loaded records whose percentage is [>= 0], and every record of its
    view has a percentage [>= 0] (for the upper bound, [<= 0]); a record
    at -5 is dropped by the lower bound 0 and one at 60 by the upper
    bound 0.  A name-prefix, name-suffix or class-section filter set to
    the empty string gives the outcome of that filter being absent. *)
Theorem zero_bound_applies_empty_string_does_not {CM : CaseMapping}
    (students : list Student) (f : Filters) (sc : SortConfig) :
  (applyFiltersAndSort students (with_percentageMin (Some (Finite 0)) f) sc =
   applyFiltersAndSort
     (List.filter (fun s => ge (latest_percentage s) (Finite 0)) students)
     (with_percentageMin None f) sc /\
   forall view,
     applyFiltersAndSort students (with_percentageMin (Some (Finite 0)) f) sc
       = Normal view ->
     forall r, In r view -> Spec.num_le (Finite 0) (latest_percentage r)) /\
  (applyFiltersAndSort students (with_percentageMax (Some (Finite 0)) f) sc =
   applyFiltersAndSort
     (List.filter (fun s => le (latest_percentage s) (Finite 0)) students)
     (with_percentageMax None f) sc /\
   forall view,
     applyFiltersAndSort students (with_percentageMax (Some (Finite 0)) f) sc
       = Normal view ->
     forall r, In r view -> Spec.num_le (latest_percentage r) (Finite 0)) /\
  (applyFiltersAndSort [student "eve" (-5); bob]
     (with_percentageMin (Some (Finite 0)) noFilters) sc = Normal [bob] /\
   applyFiltersAndSort [student "eve" (-5); bob]
     (with_percentageMax (Some (Finite 0)) noFilters) sc
     = Normal [student "eve" (-5)]) /\
  applyFiltersAndSort students (with_nameStartsWith (Some []) f) sc =
    applyFiltersAndSort students (with_nameStartsWith None f) sc /\
  applyFiltersAndSort students (with_nameEndsWith (Some []) f) sc =
    applyFiltersAndSort students (with_nameEndsWith None f) sc /\
  applyFiltersAndSort students (with_classSection (Some []) f) sc =
    applyFiltersAndSort students (with_classSection None f) sc.
Proof.
  split; [|split; [|split; [|repeat split; reflexivity]]].
  - split; [apply applyFiltersAndSort_with_percentageMin|].
    intros view Hview r Hr.
    apply (in_view_iff _ _ _ _ r Hview) in Hr.
    destruct Hr as (_ & _ & Hlo & _). apply Hlo. reflexivity.
  - split; [apply applyFiltersAndSort_with_percentageMax|].
    intros view Hview r Hr.
    apply (in_view_iff _ _ _ _ r Hview) in Hr.
    destruct Hr as (_ & _ & _ & Hhi & _). apply Hhi. reflexivity.
  - split; reflexivity.
Qed.

Lemma zero_bound_applies_empty_string_does_not_witness :
  Spec.num_le (Finite 0) (latest_percentage bob).
Proof.
  destruct (zero_bound_applies_empty_string_does_not (CM := BasicLatin)
              [student "eve" (-5); bob] noFilters (sortConfig initialState))
    as ((_ & Hlo) & _).
  apply (Hlo [bob] eq_refl bob). left; reflexivity.
Defined.

End Properties.

(* ================================================================== *)
(** ** Further behaviour of the component *)
(* ================================================================== *)

Module Behaviour.
Import JS Ranking JSFacts RankingFacts Scenario.

#[local] Arguments Qcompare : simpl never.
#[local] Arguments Qeq_bool : simpl never.

(** *** The loader *)

(** Whatever the class sections, the way the request settles and the
    prior state, [loadStudents] ends normally with the loading flag false
    and leaves the view, the sort configuration and the filters alone; it
    makes one request when there is a class section and none otherwise;
    and it notifies the user exactly when a request was made and failed. *)
Theorem loader_always_settles (cs : list jsstring) (settled : Settled)
    (w : World) :
  let w' := snd (loadStudents cs settled w) in
  fst (loadStudents cs settled w) = Normal tt /\
  loading (state w') = false /\
  filteredStudents (state w') = filteredStudents (state w) /\
  sortConfig (state w') = sortConfig (state w) /\
  filters (state w') = filters (state w) /\
  Spec.fetches (trace w') =
    (Spec.fetches (trace w) + match cs with [] => 0 | _ => 1 end)%nat /\
  ((cs <> [] /\ Spec.failed settled /\
    Spec.notifications (trace w') =
      (Spec.notifications (trace w) ++ ["Failed to load students"%string])%list)
   \/
   (~ (cs <> [] /\ Spec.failed settled) /\
    Spec.notifications (trace w') = Spec.notifications (trace w))).
Proof.
  destruct cs as [|c cs].
  - cbn. repeat split; try reflexivity; [lia|].
    right. split; [intros [H _]; congruence | reflexivity].
  - destruct settled as [[[rows|] [e|]]|e]; cbn;
      rewrite ?notifications_app, ?fetches_app; cbn;
      rewrite ?app_nil_r;
      repeat split; try reflexivity; try lia;
      first [ left; repeat split;
              first [reflexivity | discriminate | exact I]
            | right; split;
              [ intros (_ & H); apply H; reflexivity
              | rewrite ?app_nil_r; reflexivity ] ].
Qed.

(** A request fulfilled with neither an error nor data ([data] is null)
    passes in silence: the loading flag apart the state is as it was and
    nothing is notified.  When the result carries an error, data that
    come with it are not stored. *)
Theorem fulfilled_without_data_changes_nothing (cs : list jsstring)
    (w : World) :
  (let w' :=
     snd (loadStudents cs (Fulfilled {| data := None; error := None |}) w) in
   state w' = setLoading false (state w) /\
   Spec.notifications (trace w') = Spec.notifications (trace w)) /\
  (forall rows e,
     students
       (state (snd (loadStudents cs
                      (Fulfilled {| data := Some rows; error := Some e |}) w)))
     = students (state w)).
Proof.
  destruct cs as [|c cs]; cbn; rewrite ?notifications_app; cbn;
    rewrite ?app_nil_r; repeat split; reflexivity.
Qed.

(** Percentages stay coerced: when every stored percentage is a truthy
    number or exactly 0, so is every one after [loadStudents], however the
    request settles; and on such a percentage the [|| 0] of the comparator
    changes nothing, and it is not NaN. *)
Theorem loader_keeps_percentages_coerced (cs : list jsstring)
    (settled : Settled) (w : World) :
  (forall s, In s (students (state w)) ->
     Spec.coerced (latest_percentage s)) ->
  forall s, In s (students (state (snd (loadStudents cs settled w)))) ->
    Spec.coerced (latest_percentage s) /\
    or_zero (Num (latest_percentage s)) = latest_percentage s /\
    isNaN (latest_percentage s) = false.
Proof.
  intros Hinv s Hs.
  assert (Hc : Spec.coerced (latest_percentage s)).
  { destruct cs as [|c cs]; [apply Hinv; exact Hs|].
    destruct settled as [[[rows|] [e|]]|e]; cbn in Hs;
      try (apply Hinv; exact Hs).
    apply in_map_iff in Hs. destruct Hs as (r & <- & _).
    unfold Spec.coerced, coerce; cbn.
    destruct (row_latest_percentage r) as [| |n]; cbn; auto.
    destruct (truthy_number n) eqn:T; auto. }
  split; [exact Hc|].
  destruct Hc as [T| ->]; [|split; reflexivity].
  split; [cbn; rewrite T; reflexivity|].
  destruct (latest_percentage s); [discriminate|reflexivity..].
Qed.

Lemma loader_keeps_percentages_coerced_witness :
  Spec.coerced (latest_percentage (coerce (row "Dan" Undefined))).
Proof.
  apply (loader_keeps_percentages_coerced [str "10-A"]
           (Fulfilled {| data := Some fetched; error := None |})
           {| state := initialState; trace := [] |}).
  - intros s [].
  - right; left; reflexivity.
Defined.

(** *** The pipeline *)

Lemma StronglySorted_filter {A} (R : A -> A -> Prop) (g : A -> bool)
    (l : list A) :
  StronglySorted R l -> StronglySorted R (List.filter g l).
Proof.
  induction 1 as [|x l Hl IH Hx]; simpl; [constructor|].
  destruct (g x); [|exact IH].
  constructor; [exact IH|].
  rewrite Forall_forall in *. intros y Hy. apply filter_In in Hy.
  apply Hx, Hy.
Qed.

(** Sorting and filtering commute: a stable sort does not reorder what a
    filter leaves. *)
Lemma sort_filter {A} (comparefn : A -> A -> Z) (g : A -> bool)
    (l : list A) :
  consistent comparefn ->
  List.filter g (sort comparefn l) = sort comparefn (List.filter g l).
Proof.
  intros Hc. apply sort_unique; [exact Hc| |].
  - apply StronglySorted_filter, sort_sorted, Hc.
  - intros x. unfold ties. rewrite filter_swap.
    change (List.filter g (ties comparefn x (sort comparefn l)) =
            List.filter (fun y => (comparefn x y =? 0)%Z) (List.filter g l)).
    rewrite sort_stable by exact Hc. unfold ties. apply filter_swap.
Qed.

Lemma sort_sorted_id {A} (comparefn : A -> A -> Z) (l : list A) :
  consistent comparefn ->
  StronglySorted (before comparefn) l -> sort comparefn l = l.
Proof.
  intros Hc Hl. symmetry. apply sort_unique; auto.
Qed.

Section PipelineBehaviour.
Context {CM : CaseMapping}.

Lemma active_iff (x : option jsstring) :
  active x = true <-> exists p, Spec.specified x p.
Proof.
  unfold active, Spec.specified. destruct x as [p|].
  - rewrite truthy_string_iff. split.
    + intros H. exists p. auto.
    + intros (p' & [= <-] & H). exact H.
  - split; [discriminate | intros (p & [=] & _)].
Qed.

Lemma passes_iff (f : Filters) (s : Student) :
  passes f s = true <->
  Spec.class_section_ok f s /\ Spec.lower_bound_ok f s /\
  Spec.upper_bound_ok f s.
Proof.
  unfold passes.
  rewrite !andb_true_iff, class_test_iff, lower_test_iff, upper_test_iff.
  tauto.
Qed.

Lemma forallb_false_iff {A} (g : A -> bool) (l : list A) :
  forallb g l = false <-> exists x, In x l /\ g x = false.
Proof.
  induction l as [|x l IH]; simpl.
  - split; [discriminate | intros (x & [] & _)].
  - rewrite andb_false_iff, IH. split.
    + intros [H|(y & Hy & Hg)]; [exists x | exists y]; auto.
    + intros (y & [<-|Hy] & Hg); [left | right; exists y]; auto.
Qed.

(** The pipeline throws exactly when a name filter is specified and a
    loaded record without a name passes the class-section filter and the
    two bounds; what it throws is a TypeError.  On the empty record set it
    returns the empty view, whatever the filters. *)
Theorem pipeline_throws_on_missing_name (students : list Student)
    (f : Filters) (sc : SortConfig) :
  (forall e,
     applyFiltersAndSort students f sc = Throw e <->
     e = TypeError /\
     (exists p, Spec.specified (nameStartsWith f) p \/
                Spec.specified (nameEndsWith f) p) /\
     (exists s, In s students /\ name s = None /\
                Spec.class_section_ok f s /\ Spec.lower_bound_ok f s /\
                Spec.upper_bound_ok f s)) /\
  applyFiltersAndSort [] f sc = Normal [].
Proof.
  split.
  - intros e. rewrite outcome. unfold throws.
    destruct (active (nameStartsWith f) || active (nameEndsWith f)) eqn:Act;
      simpl.
    + destruct (forallb has_name (List.filter (passes f) students)) eqn:F;
        simpl.
      * split; [discriminate|].
        intros (_ & _ & s & Hs & Hn & Hp).
        rewrite forallb_forall in F.
        assert (Hin : In s (List.filter (passes f) students))
          by (apply filter_In; split; [exact Hs | apply passes_iff; exact Hp]).
        apply F in Hin. unfold has_name in Hin. rewrite Hn in Hin.
        discriminate.
      * apply forallb_false_iff in F. destruct F as (s & Hs & Hn).
        apply filter_In in Hs. destruct Hs as [Hs Hp].
        apply passes_iff in Hp.
        split; [intros [= <-]|intros (-> & _); reflexivity].
        split; [reflexivity|]. split.
        -- apply orb_true_iff in Act.
           destruct Act as [A|A]; apply active_iff in A;
             destruct A as [p Hp']; exists p; auto.
        -- exists s. unfold has_name in Hn.
           destruct (name s); [discriminate|]. auto.
    + split; [discriminate|].
      intros (_ & (p & Hp) & _). apply orb_false_iff in Act.
      destruct Act as [A1 A2].
      destruct Hp as [Hp|Hp];
        [assert (A : active (nameStartsWith f) = true)
         |assert (A : active (nameEndsWith f) = true)];
        try (apply active_iff; exists p; exact Hp); congruence.
  - rewrite outcome. unfold throws. simpl. rewrite andb_false_r. reflexivity.
Qed.

(** The callback handed to [sort] is a consistent comparator for every
    sort configuration (a percentage that is NaN counts as 0), so the
    outcome of the sort is defined: the view is the one arrangement of the
    kept records that is in the order of the callback and keeps records
    that compare equal in the order they were loaded in. *)
Theorem view_is_the_stable_arrangement (students : list Student)
    (f : Filters) (sc : SortConfig) (view : list Student) :
  applyFiltersAndSort students f sc = Normal view ->
  consistent (comparefn sc) /\
  StronglySorted (before (comparefn sc)) view /\
  (forall x, ties (comparefn sc) x view =
             ties (comparefn sc) x (List.filter (keeps f) students)) /\
  (forall l,
     StronglySorted (before (comparefn sc)) l ->
     (forall x, ties (comparefn sc) x l =
                ties (comparefn sc) x (List.filter (keeps f) students)) ->
     l = view).
Proof.
  intros Hview. pose proof (comparefn_consistent sc) as Hc.
  pose proof (view_sorted _ _ _ _ Hview) as Hs.
  rewrite outcome in Hview. destruct (throws f students); [discriminate|].
  injection Hview as <-.
  split; [exact Hc|]. split; [exact Hs|]. split.
  - intros x. apply sort_stable, Hc.
  - intros l Hl Ht. apply sort_unique; assumption.
Qed.

End PipelineBehaviour.

Lemma pipeline_throws_on_missing_name_witness :
  applyFiltersAndSort (CM := BasicLatin) [Alice; nameless]
    (with_nameStartsWith (Some (str "AL")) noFilters)
    (sortConfig initialState)
  = Throw TypeError.
Proof.
  apply (proj1 (pipeline_throws_on_missing_name (CM := BasicLatin)
                  [Alice; nameless]
                  (with_nameStartsWith (Some (str "AL")) noFilters)
                  (sortConfig initialState))).
  split; [reflexivity|]. split.
  - exists (str "AL"). left. split; [reflexivity|discriminate].
  - exists nameless. split; [right; left; reflexivity|].
    split; [reflexivity|].
    repeat split; intros x H;
      first [discriminate H | destruct H as [H _]; discriminate H].
Defined.

Lemma view_is_the_stable_arrangement_witness :
  StronglySorted
    (before (comparefn (CM := BasicLatin) (sortConfig initialState)))
    [Alice; Cara; bob].
Proof.
  exact (proj1 (proj2 (view_is_the_stable_arrangement (CM := BasicLatin)
           loaded noFilters (sortConfig initialState) [Alice; Cara; bob]
           eq_refl))).
Defined.

Section ViewBehaviour.
Context {CM : CaseMapping}.

(** Changing the sort configuration never changes which records are
    shown, nor whether the pipeline throws: from a state whose view is in
    step with its record set, [handleSortChange] followed by the effect
    gives a view that is a permutation of the one before, the record set
    and the filters being as they were. *)
Theorem sort_change_only_reorders (st : State) (by' : jsstring)
    (order' : Order) :
  Spec.in_sync st ->
  exists st',
    run_applyFiltersAndSort (handleSortChange by' order' st) = Normal st' /\
    Permutation (filteredStudents st) (filteredStudents st') /\
    students st' = students st /\ filters st' = filters st /\
    sortConfig st' = {| by_ := by'; order := order' |} /\
    loading st' = loading st /\
    Spec.in_sync st'.
Proof.
  unfold Spec.in_sync, run_applyFiltersAndSort, handleSortChange.
  cbn [students filters sortConfig setSortConfig].
  rewrite !outcome.
  destruct (throws (filters st) (students st)) eqn:T; [discriminate|].
  intros [= Hv]. simpl. eexists. split; [reflexivity|]. cbn.
  rewrite outcome, T.
  repeat split; try reflexivity.
  rewrite <- Hv, <- !sort_perm. reflexivity.
Qed.

Lemma throws_stricter (f f' : Filters) (students : list Student) :
  active (nameStartsWith f') = active (nameStartsWith f) ->
  active (nameEndsWith f') = active (nameEndsWith f) ->
  (forall s, passes f' s = true -> passes f s = true) ->
  throws f students = false -> throws f' students = false.
Proof.
  unfold throws. intros -> -> Hp.
  destruct (active (nameStartsWith f) || active (nameEndsWith f));
    [simpl|reflexivity].
  rewrite !negb_false_iff, !forallb_forall. intros H s Hs.
  apply H. apply filter_In in Hs. apply filter_In. split; [tauto|].
  apply Hp; tauto.
Qed.

(** A stricter filter set gives the view of the laxer one with records
    taken out, the others staying in place. *)
Lemma stricter_view (students : list Student) (f f' : Filters)
    (sc : SortConfig) (g : Student -> bool) (view : list Student) :
  applyFiltersAndSort students f sc = Normal view ->
  (forall s, keeps f' s = keeps f s && g s) ->
  throws f' students = false ->
  applyFiltersAndSort students f' sc = Normal (List.filter g view).
Proof.
  rewrite !outcome. destruct (throws f students); [discriminate|].
  intros [= <-] Hk ->. f_equal.
  rewrite sort_filter by apply comparefn_consistent.
  f_equal. rewrite filter_andb. apply filter_ext. exact Hk.
Qed.

(** Setting a bound or a class section that was absent takes records out
    of the view and leaves the others where they were: from a state whose
    view is in step, [handleFilterChange] followed by the effect gives the
    old view filtered by the new test.  The same holds for a name filter
    whenever the effect does not throw. *)
Theorem new_filter_removes_without_reordering (st : State) :
  Spec.in_sync st ->
  (forall m, percentageMin (filters st) = None ->
     run_applyFiltersAndSort
       (handleFilterChange (change_percentageMin (Some m)) st)
     = Normal
         (setFilteredStudents
            (List.filter (fun s => ge (latest_percentage s) m)
               (filteredStudents st))
            (handleFilterChange (change_percentageMin (Some m)) st))) /\
  (forall m, percentageMax (filters st) = None ->
     run_applyFiltersAndSort
       (handleFilterChange (change_percentageMax (Some m)) st)
     = Normal
         (setFilteredStudents
            (List.filter (fun s => le (latest_percentage s) m)
               (filteredStudents st))
            (handleFilterChange (change_percentageMax (Some m)) st))) /\
  (forall c, classSection (filters st) = None -> c <> [] ->
     run_applyFiltersAndSort
       (handleFilterChange (change_classSection (Some c)) st)
     = Normal
         (setFilteredStudents
            (List.filter (fun s => strict_eq (class_section s) c)
               (filteredStudents st))
            (handleFilterChange (change_classSection (Some c)) st))) /\
  (forall p st', nameStartsWith (filters st) = None ->
     run_applyFiltersAndSort
       (handleFilterChange (change_nameStartsWith (Some p)) st)
     = Normal st' ->
     filteredStudents st' =
     List.filter (name_test startsWith (Some p)) (filteredStudents st)) /\
  (forall p st', nameEndsWith (filters st) = None ->
     run_applyFiltersAndSort
       (handleFilterChange (change_nameEndsWith (Some p)) st)
     = Normal st' ->
     filteredStudents st' =
     List.filter (name_test endsWith (Some p)) (filteredStudents st)).
Proof.
  unfold Spec.in_sync. intros Hsync.
  assert (Hno : throws (filters st) (students st) = false).
  { rewrite outcome in Hsync.
    destruct (throws (filters st) (students st)); [discriminate|reflexivity]. }
  unfold run_applyFiltersAndSort, handleFilterChange.
  cbn [students filters sortConfig setFilters].
  split; [|split; [|split; [|split]]].
  - intros m Hm.
    rewrite (stricter_view (students st) (filters st) _ (sortConfig st)
               (fun s => ge (latest_percentage s) m) _ Hsync);
      [reflexivity| |].
    + intros s. unfold keeps, passes; cbn. rewrite Hm. btauto.
    + apply throws_stricter with (filters st); try reflexivity; [|exact Hno].
      intros s. unfold passes; cbn. rewrite Hm, !andb_true_iff. tauto.
  - intros m Hm.
    rewrite (stricter_view (students st) (filters st) _ (sortConfig st)
               (fun s => le (latest_percentage s) m) _ Hsync);
      [reflexivity| |].
    + intros s. unfold keeps, passes; cbn. rewrite Hm. btauto.
    + apply throws_stricter with (filters st); try reflexivity; [|exact Hno].
      intros s. unfold passes; cbn. rewrite Hm, !andb_true_iff. tauto.
  - intros c Hc Hne. apply truthy_string_iff in Hne.
    rewrite (stricter_view (students st) (filters st) _ (sortConfig st)
               (fun s => strict_eq (class_section s) c) _ Hsync);
      [reflexivity| |].
    + intros s. unfold keeps, passes; cbn. rewrite Hc, Hne. btauto.
    + apply throws_stricter with (filters st); try reflexivity; [|exact Hno].
      intros s. unfold passes; cbn. rewrite Hc, Hne, !andb_true_iff. tauto.
  - intros p st' Hp.
    destruct (throws (with_nameStartsWith (Some p) (filters st))
                (students st)) eqn:T.
    + rewrite outcome, T. discriminate.
    + rewrite (stricter_view (students st) (filters st) _ (sortConfig st)
                 (name_test startsWith (Some p)) _ Hsync); [| |exact T].
      * intros [= <-]. reflexivity.
      * intros s. unfold keeps, passes; cbn. rewrite Hp. cbn. btauto.
  - intros p st' Hp.
    destruct (throws (with_nameEndsWith (Some p) (filters st))
                (students st)) eqn:T.
    + rewrite outcome, T. discriminate.
    + rewrite (stricter_view (students st) (filters st) _ (sortConfig st)
                 (name_test endsWith (Some p)) _ Hsync); [| |exact T].
      * intros [= <-]. reflexivity.
      * intros s. unfold keeps, passes; cbn. rewrite Hp. cbn. btauto.
Qed.

(** Run on its own view, the pipeline returns that view: no record is
    dropped, none is moved, and nothing is thrown. *)
Theorem pipeline_is_idempotent (students : list Student) (f : Filters)
    (sc : SortConfig) (view : list Student) :
  applyFiltersAndSort students f sc = Normal view ->
  applyFiltersAndSort view f sc = Normal view.
Proof.
  intros Hview.
  assert (Hk : forall s, In s view -> keeps f s = true).
  { intros s Hs. apply (in_view_iff _ _ _ _ s Hview) in Hs.
    apply keeps_iff, Hs. }
  pose proof (view_sorted _ _ _ _ Hview) as Hs.
  rewrite outcome.
  replace (throws f view) with false.
  - rewrite (filter_all _ _ Hk).
    rewrite sort_sorted_id; auto using comparefn_consistent.
  - symmetry. unfold throws.
    destruct (active (nameStartsWith f)) eqn:A1; simpl.
    + rewrite negb_false_iff, forallb_forall. intros s Hin.
      apply filter_In in Hin. destruct Hin as [Hin _].
      specialize (Hk s Hin). unfold keeps in Hk.
      rewrite !andb_true_iff in Hk.
      apply name_test_has_name with startsWith (nameStartsWith f); tauto.
    + destruct (active (nameEndsWith f)) eqn:A2; simpl; [|reflexivity].
      rewrite negb_false_iff, forallb_forall. intros s Hin.
      apply filter_In in Hin. destruct Hin as [Hin _].
      specialize (Hk s Hin). unfold keeps in Hk.
      rewrite !andb_true_iff in Hk.
      apply name_test_has_name with endsWith (nameEndsWith f); tauto.
Qed.
End ViewBehaviour.

Lemma sort_change_only_reorders_witness :
  exists st',
    run_applyFiltersAndSort (CM := BasicLatin)
      (handleSortChange (str "name") asc shown) = Normal st' /\
    Permutation [Alice; Cara; bob] (filteredStudents st').
Proof.
  destruct (sort_change_only_reorders (CM := BasicLatin) shown
              (str "name") asc eq_refl) as (st' & Hrun & Hperm & _).
  exists st'. split; assumption.
Defined.

Lemma new_filter_removes_without_reordering_witness :
  run_applyFiltersAndSort (CM := BasicLatin)
    (handleFilterChange (change_percentageMin (Some (Finite 92))) shown)
  = Normal
      (setFilteredStudents [Alice; Cara]
         (handleFilterChange (change_percentageMin (Some (Finite 92)))
            shown)).
Proof.
  exact (proj1 (new_filter_removes_without_reordering (CM := BasicLatin)
                  shown eq_refl) (Finite 92) eq_refl).
Defined.

Lemma pipeline_is_idempotent_witness :
  applyFiltersAndSort (CM := BasicLatin) [Alice; Cara; bob] noFilters
    (sortConfig initialState)
  = Normal [Alice; Cara; bob].
Proof.
  exact (pipeline_is_idempotent (CM := BasicLatin) loaded noFilters
           (sortConfig initialState) [Alice; Cara; bob] eq_refl).
Defined.

Section OrderBehaviour.
Context {CM : CaseMapping}.

Lemma percentage_not_NaN (r : Student) : isNaN (Spec.percentage r) = false.
Proof. unfold Spec.percentage. destruct (latest_percentage r); reflexivity. Qed.

Lemma compare_number_ge (x y : number) :
  isNaN x = false -> isNaN y = false ->
  (Spec.sign (Spec.compare_number x y) >= 0)%Z -> Spec.num_le y x.
Proof.
  destruct x as [| |p|], y as [| |q|]; simpl; try discriminate;
    intros _ _; try tauto; try lia.
  destruct (Qcompare_spec p q); simpl; intros; try lia; lra.
Qed.

(** The order holds between any two records of the view, not only
    neighbours: a record never has a key that compares after the key of a
    record further down (before, when descending).  Sorted by percentage,
    descending, the first record has the highest percentage of the view. *)
Theorem earlier_records_rank_no_worse (students : list Student)
    (f : Filters) (sc : SortConfig) (view : list Student) :
  applyFiltersAndSort students f sc = Normal view ->
  (forall front a back r,
     view = (front ++ a :: back)%list -> In r back ->
     match order sc with
     | asc => (Spec.compare (Spec.active_key sc) a r <= 0)%Z
     | desc => (Spec.compare (Spec.active_key sc) a r >= 0)%Z
     end) /\
  (by_ sc = str "latest_percentage" -> order sc = desc ->
   forall top rest r, view = top :: rest -> In r view ->
     Spec.num_le (Spec.percentage r) (Spec.percentage top)).
Proof.
  intros Hview. pose proof (view_sorted _ _ _ _ Hview) as Hs.
  assert (Hall : forall front a back r,
             view = (front ++ a :: back)%list -> In r back ->
             match order sc with
             | asc => (Spec.compare (Spec.active_key sc) a r <= 0)%Z
             | desc => (Spec.compare (Spec.active_key sc) a r >= 0)%Z
             end).
  { intros front a back r -> Hr.
    pose proof (sorted_later _ _ _ _ _ Hs Hr) as H.
    unfold before in H. rewrite comparefn_compare in H.
    destruct (order sc); lia. }
  split; [exact Hall|].
  intros Hby Hdesc top rest r -> [<-|Hr].
  - pose proof (percentage_not_NaN top) as Hn. unfold Spec.percentage in *.
    destruct (latest_percentage top); simpl in *; try tauto; try discriminate;
      lra.
  - specialize (Hall [] top rest r eq_refl Hr). rewrite Hdesc in Hall.
    unfold Spec.active_key in Hall. rewrite Hby in Hall.
    change (Spec.sign (Spec.compare_number (Spec.percentage top)
                         (Spec.percentage r)) >= 0)%Z in Hall.
    apply compare_number_ge; auto using percentage_not_NaN.
Qed.
End OrderBehaviour.

Lemma earlier_records_rank_no_worse_witness :
  Spec.num_le (Spec.percentage bob) (Spec.percentage Alice).
Proof.
  apply (proj2 (earlier_records_rank_no_worse (CM := BasicLatin) loaded
                  noFilters (sortConfig initialState) [Alice; Cara; bob]
                  eq_refl) eq_refl eq_refl Alice [Cara; bob] bob eq_refl).
  right; right; left; reflexivity.
Defined.

(** *** Name filters and the case of the filter

    The name is upper-cased, the filter is not: with the case tables of
    Basic Latin, a prefix or a suffix that holds a lower-case letter
    matches no record, so the view, when there is one, is empty. *)

Lemma upper_unit_not_lower (c : N) : ~ Spec.lower_case_letter (upper_unit c).
Proof.
  unfold Spec.lower_case_letter, upper_unit.
  destruct (N.leb_spec 97 c); destruct (N.leb_spec c 122); simpl; lia.
Qed.

Lemma upper_cased_has_no_lower (n p t1 t2 : jsstring) (c : N) :
  toUpperCase (CaseMapping := BasicLatin) n = (t1 ++ p ++ t2)%list ->
  In c p -> ~ Spec.lower_case_letter c.
Proof.
  simpl. intros Hn Hc.
  assert (Hin : In c (List.map upper_unit n))
    by (rewrite Hn; apply in_or_app; right; apply in_or_app; left; exact Hc).
  apply in_map_iff in Hin. destruct Hin as (c' & <- & _).
  apply upper_unit_not_lower.
Qed.

Theorem lower_case_filter_matches_nothing (students : list Student)
    (f : Filters) (sc : SortConfig) (view : list Student) :
  applyFiltersAndSort (CM := BasicLatin) students f sc = Normal view ->
  forall p c, In c p -> Spec.lower_case_letter c ->
    nameStartsWith f = Some p \/ nameEndsWith f = Some p ->
    view = [].
Proof.
  intros Hview p c Hc Hlow Hp.
  destruct view as [|r view]; [reflexivity|]. exfalso.
  assert (Hr : In r (r :: view)) by (left; reflexivity).
  apply (in_view_iff _ _ _ _ r Hview) in Hr.
  destruct Hr as (_ & _ & _ & _ & Hpre & Hsuf).
  assert (Hne : p <> []) by (intros ->; destruct Hc).
  destruct Hp as [Hp|Hp].
  - destruct (Hpre p) as (n & _ & t & Ht); [split; assumption|].
    apply (upper_cased_has_no_lower n p [] t c Ht Hc Hlow).
  - destruct (Hsuf p) as (n & _ & t & Ht); [split; assumption|].
    apply (upper_cased_has_no_lower n p t [] c); auto.
    rewrite app_nil_r. exact Ht.
Qed.

Lemma lower_case_filter_matches_nothing_witness :
  applyFiltersAndSort (CM := BasicLatin) loaded
    (with_nameStartsWith (Some (str "Al")) noFilters)
    (sortConfig initialState)
  = Normal [].
Proof.
  destruct (returns_when_named (CM := BasicLatin) loaded
              (with_nameStartsWith (Some (str "Al")) noFilters)
              (sortConfig initialState)) as [view Hview].
  - intros s [<-|[<-|[<-|[]]]]; discriminate.
  - rewrite Hview. f_equal.
    apply (lower_case_filter_matches_nothing loaded _ _ view Hview
             (str "Al") 108%N).
    + right; left; reflexivity.
    + unfold Spec.lower_case_letter; lia.
    + left; reflexivity.
Defined.

(** *** The two colour mappers *)

Lemma num_le_trans (x y z : number) :
  Spec.num_le x y -> Spec.num_le y z -> Spec.num_le x z.
Proof.
  destruct x, y, z; simpl; try tauto. intros; lra.
Qed.

Lemma colour_level (x : number) :
  exists t,
    getPerformanceColor x = Spec.style t /\
    Spec.tier_level t =
      if ge x (Finite 90) then 4%nat
      else if ge x (Finite 75) then 3%nat
      else if ge x (Finite 60) then 2%nat
      else if ge x (Finite 45) then 1%nat else 0%nat.
Proof.
  unfold getPerformanceColor.
  destruct (ge x (Finite 90)); [exists Spec.excellent; split; reflexivity|].
  destruct (ge x (Finite 75)); [exists Spec.good; split; reflexivity|].
  destruct (ge x (Finite 60)); [exists Spec.fair; split; reflexivity|].
  destruct (ge x (Finite 45)); [exists Spec.weak; split; reflexivity|].
  exists Spec.poor; split; reflexivity.
Qed.

(** A higher percentage never gets a lower tier: [getPerformanceColor] is
    monotone from the numeric order to the order of the tiers. *)
Theorem performance_colour_is_monotone (p q : number) :
  Spec.num_le p q ->
  exists t t',
    getPerformanceColor p = Spec.style t /\
    getPerformanceColor q = Spec.style t' /\
    (Spec.tier_level t <= Spec.tier_level t')%nat.
Proof.
  intros Hpq.
  assert (Hm : forall T, ge p T = true -> ge q T = true).
  { intros T. rewrite !ge_iff. intros H. apply num_le_trans with p; auto. }
  destruct (colour_level p) as (t & Hp & Lp).
  destruct (colour_level q) as (t' & Hq & Lq).
  exists t, t'. split; [exact Hp|]. split; [exact Hq|].
  rewrite Lp, Lq.
  pose proof (Hm (Finite 90)) as H90. pose proof (Hm (Finite 75)) as H75.
  pose proof (Hm (Finite 60)) as H60. pose proof (Hm (Finite 45)) as H45.
  destruct (ge p (Finite 90)); [rewrite H90 by reflexivity; lia|].
  destruct (ge p (Finite 75));
    [rewrite H75 by reflexivity; destruct (ge q (Finite 90)); lia|].
  destruct (ge p (Finite 60));
    [rewrite H60 by reflexivity;
     destruct (ge q (Finite 90)); destruct (ge q (Finite 75)); lia|].
  destruct (ge p (Finite 45));
    [rewrite H45 by reflexivity;
     destruct (ge q (Finite 90)); destruct (ge q (Finite 75));
     destruct (ge q (Finite 60)); lia|].
  lia.
Qed.

Lemma performance_colour_is_monotone_witness :
  exists t t',
    getPerformanceColor (Finite 60) = Spec.style t /\
    getPerformanceColor (Finite 92) = Spec.style t' /\
    (Spec.tier_level t <= Spec.tier_level t')%nat.
Proof.
  apply (performance_colour_is_monotone (Finite 60) (Finite 92)).
  simpl. lra.
Defined.

Lemma strict_eq_number_iff (x : number) (z : Z) :
  strict_eq_number x (Finite (inject_Z z)) = true <->
  exists q, x = Finite q /\ (q == inject_Z z)%Q.
Proof.
  destruct x as [| |q|]; simpl;
    try (split; [discriminate | intros (q & [=] & _)]).
  rewrite Qeq_bool_iff. split.
  - intros H. exists q. auto.
  - intros (q' & [= <-] & H). exact H.
Qed.

Lemma strict_eq_succ_index (i : nat) (z : Z) :
  strict_eq_number (succ_index i) (Finite (inject_Z z)) =
  (Z.of_nat i + 1 =? z)%Z.
Proof.
  unfold succ_index, strict_eq_number.
  destruct (Z.eqb_spec (Z.of_nat i + 1) z) as [->|Hne].
  - apply Qeq_bool_iff. reflexivity.
  - destruct (Qeq_bool _ _) eqn:E; [|reflexivity].
    apply Qeq_bool_iff in E. unfold Qeq in E. simpl in E. lia.
Qed.

Lemma getRankBadgeColor_succ_index (index : nat) :
  getRankBadgeColor (succ_index index)
  = nth index [Spec.gold; Spec.silver; Spec.bronze] Spec.plain.
Proof.
  unfold getRankBadgeColor.
  change (Finite 1) with (Finite (inject_Z 1)).
  change (Finite 2) with (Finite (inject_Z 2)).
  change (Finite 3) with (Finite (inject_Z 3)).
  rewrite !strict_eq_succ_index.
  destruct index as [|[|[|index]]]; try reflexivity.
  destruct (Z.eqb_spec (Z.of_nat (S (S (S index))) + 1) 1); [lia|].
  destruct (Z.eqb_spec (Z.of_nat (S (S (S index))) + 1) 2); [lia|].
  destruct (Z.eqb_spec (Z.of_nat (S (S (S index))) + 1) 3); [lia|].
  destruct index; reflexivity.
Qed.

(** [getRankBadgeColor] gives gold, silver and bronze to the ranks that
    are equal to 1, 2 and 3 and to nothing else; every other number (0, a
    fraction, NaN, an infinity, and every rank from 4 on) gets the plain
    badge.  At the positions of a list, counted from 0, that is gold,
    silver, bronze, then plain. *)
Theorem rank_badge_by_rank :
  (forall rank,
     (getRankBadgeColor rank = Spec.gold <->
      exists q, rank = Finite q /\ (q == 1)%Q) /\
     (getRankBadgeColor rank = Spec.silver <->
      exists q, rank = Finite q /\ (q == 2)%Q) /\
     (getRankBadgeColor rank = Spec.bronze <->
      exists q, rank = Finite q /\ (q == 3)%Q)) /\
  (forall rank,
     getRankBadgeColor rank = Spec.gold \/
     getRankBadgeColor rank = Spec.silver \/
     getRankBadgeColor rank = Spec.bronze \/
     getRankBadgeColor rank = Spec.plain) /\
  (forall index,
     getRankBadgeColor (succ_index index)
     = nth index [Spec.gold; Spec.silver; Spec.bronze] Spec.plain).
Proof.
  split; [|split].
  - intros rank. unfold getRankBadgeColor.
    change (Finite 1) with (Finite (inject_Z 1)).
    change (Finite 2) with (Finite (inject_Z 2)).
    change (Finite 3) with (Finite (inject_Z 3)).
    pose proof (strict_eq_number_iff rank 1) as H1.
    pose proof (strict_eq_number_iff rank 2) as H2.
    pose proof (strict_eq_number_iff rank 3) as H3.
    assert (Hex : forall a b : Q,
               ~ (a == b)%Q ->
               (exists q, rank = Finite q /\ (q == a)%Q) ->
               (exists q, rank = Finite q /\ (q == b)%Q) -> False).
    { intros a b Hab (q & -> & Ha) (q' & [= <-] & Hb). apply Hab.
      rewrite <- Ha. exact Hb. }
    destruct (strict_eq_number rank (Finite (inject_Z 1))) eqn:E1;
      [|destruct (strict_eq_number rank (Finite (inject_Z 2))) eqn:E2;
        [|destruct (strict_eq_number rank (Finite (inject_Z 3))) eqn:E3]].
    + apply proj1 in H1. specialize (H1 eq_refl).
      repeat split; intros H; try discriminate H; try reflexivity;
        try exact H1; exfalso.
      * apply (Hex 1 2); auto. discriminate.
      * apply (Hex 1 3); auto. discriminate.
    + apply proj1 in H2. specialize (H2 eq_refl).
      repeat split; intros H; try discriminate H; try reflexivity;
        try exact H2; exfalso.
      * apply H1 in H. discriminate.
      * apply (Hex 2 3); auto. discriminate.
    + apply proj1 in H3. specialize (H3 eq_refl).
      repeat split; intros H; try discriminate H; try reflexivity;
        try exact H3; exfalso.
      * apply H1 in H. discriminate.
      * apply H2 in H. discriminate.
    + repeat split; intros H; try discriminate H; exfalso.
      * apply H1 in H. discriminate.
      * apply H2 in H. discriminate.
      * apply H3 in H. discriminate.
  - intros rank. unfold getRankBadgeColor.
    destruct (strict_eq_number rank (Finite 1)); [auto|].
    destruct (strict_eq_number rank (Finite 2)); [auto|].
    destruct (strict_eq_number rank (Finite 3)); auto.
  - apply getRankBadgeColor_succ_index.
Qed.

(** *** What is rendered *)


Lemma length_map_from {A B} (f : A -> nat -> B) (k : nat) (l : list A) :
  List.length (map_from f k l) = List.length l.
Proof.
  revert k. induction l as [|x l IH]; intros k; simpl; [|rewrite IH];
    reflexivity.
Qed.

Lemma keys_of_cards (k : nat) (l : list Student) :
  List.map key (map_from card k l) = List.map id l.
Proof.
  revert k. induction l as [|x l IH]; intros k; simpl; [|rewrite IH];
    reflexivity.
Qed.




(** When [loadStudents] returns, however the request settled, the spinner
    is gone and the page is the one the prior state gives with the loading
    flag off: the list on the page is the view as it was, whatever was
    fetched, until the effect recomputes it. *)
Theorem load_ends_the_spinner (teacherClassSections cs : list jsstring)
    (settled : Settled) (w : World) :
  let st' := state (snd (loadStudents cs settled w)) in
  TeacherRankingSection teacherClassSections st' =
    TeacherRankingSection teacherClassSections (setLoading false (state w)) /\
  (forall size,
     TeacherRankingSection teacherClassSections st' <> LoadingSpinner size) /\
  TeacherRankingSection teacherClassSections (setLoading true (state w))
    = LoadingSpinner "lg".
Proof.
  assert (H : TeacherRankingSection teacherClassSections
                (state (snd (loadStudents cs settled w))) =
              TeacherRankingSection teacherClassSections
                (setLoading false (state w))).
  { destruct cs as [|c cs]; [reflexivity|].
    destruct settled as [[[rows|] [e|]]|e]; reflexivity. }
  cbv zeta. rewrite H. repeat split; try reflexivity.
  intros size. unfold TeacherRankingSection. cbn. discriminate.
Qed.

Section EndToEnd.
Context {CM : CaseMapping}.

(** From fetch to page, with no filter set: after a request fulfilled with
    rows, the effect returns a view and the component shows exactly one
    card per fetched row (the empty-state message when no row came back),
    the keys of the cards being the identifiers of the rows, each once. *)
Theorem every_fetched_row_gets_a_card
    (teacherClassSections cs : list jsstring) (rows : list Row) (w : World) :
  cs <> [] -> filters (state w) = noFilters ->
  let st1 :=
    state (snd (loadStudents cs
                  (Fulfilled {| data := Some rows; error := None |}) w)) in
  exists st2 widget,
    run_applyFiltersAndSort st1 = Normal st2 /\
    Permutation (List.map coerce rows) (filteredStudents st2) /\
    (rows = [] ->
     TeacherRankingSection teacherClassSections st2
       = Page widget NoStudentsFound) /\
    (rows <> [] ->
     exists cards,
       TeacherRankingSection teacherClassSections st2
         = Page widget (CardList cards) /\
       List.length cards = List.length rows /\
       Permutation (List.map row_id rows) (List.map key cards)).
Proof.
  intros Hcs Hf. rewrite (loadStudents_success cs rows w Hcs). cbn.
  unfold run_applyFiltersAndSort. cbn [students filters sortConfig
    setLoading setStudents]. rewrite Hf.
  change (applyFiltersAndSort (List.map coerce rows) noFilters
            (sortConfig (state w)))
    with (Normal (E := Error)
            (sort (comparefn (sortConfig (state w))) (List.map coerce rows))).
  simpl bind. eexists. eexists. split; [reflexivity|].
  unfold TeacherRankingSection. cbn.
  pose proof (sort_perm (comparefn (sortConfig (state w)))
                (List.map coerce rows)) as Hperm.
  split; [exact Hperm|]. split.
  - intros ->. reflexivity.
  - intros Hne. pose proof (Permutation_length Hperm) as Hlen.
    rewrite length_map in Hlen.
    destruct (sort (comparefn (sortConfig (state w)))
                (List.map coerce rows)) as [|s0 view] eqn:Es.
    + destruct rows; [congruence|discriminate Hlen].
    + eexists. split; [reflexivity|]. split.
      * unfold map_indexed. rewrite length_map_from. symmetry. exact Hlen.
      * unfold map_indexed. rewrite keys_of_cards.
        rewrite <- Hperm, map_map. reflexivity.
Qed.
End EndToEnd.

Lemma every_fetched_row_gets_a_card_witness :
  exists st2,
    run_applyFiltersAndSort (CM := BasicLatin)
      (state (snd (loadStudents [str "10-A"]
                     (Fulfilled {| data := Some fetched; error := None |})
                     {| state := initialState; trace := [] |})))
    = Normal st2 /\
    List.length (filteredStudents st2) = 3%nat.
Proof.
  destruct (every_fetched_row_gets_a_card (CM := BasicLatin) [str "10-A"]
              [str "10-A"] fetched {| state := initialState; trace := [] |})
    as (st2 & widget & Hrun & Hperm & _); [discriminate|reflexivity|].
  exists st2. split; [exact Hrun|].
  rewrite <- (Permutation_length Hperm). reflexivity.
Defined.

End Behaviour.
